(** * The bank example producer (quix platform version)

    A shallow embedding of
    [examples/bank_example/quix_platform_version/producer.py]: the script
    that draws synthetic purchase events, serializes each one for the topic
    [qts__purchase_events] and hands it to the producer client, inside a
    [with app.get_producer() as producer:] block.

    The script is effectful code over three kinds of collaborators:
    - the Python standard library ([random], [uuid], [time], [str], [len]),
      modelled in [Module Py] as pure functions of the entropy they consume;
    - the streaming library ([topic.serialize], [producer.produce], the
      producer's context manager), taken as an [Environment] whose calls
      may raise;
    - the script itself, embedded in [Module Producer] as a state and
      exception monad that logs every observable effect in a trace. *)

From Stdlib Require Import ZArith NArith QArith Ascii String List Lia.
From stdpp Require Import base numbers strings pretty list gmap.
From Equations Require Import Equations.

Local Open Scope Z_scope.

(** ** Python built-ins used by the script *)

Module Py.

(** [str(n)] for an [int]: the decimal representation, with a leading
    minus sign for negative numbers. *)
Definition str (n : Z) : string := pretty n.

(** [len(s)] for a string. *)
Definition len (s : string) : Z := Z.of_nat (String.length s).

(** [s * n] for a string [s] and an [int] [n]: [n] copies of [s], and the
    empty string when [n <= 0]. *)
Fixpoint repeat_string (s : string) (n : nat) : string :=
  match n with
  | O => ""
  | S n' => s +:+ repeat_string s n'
  end.

Definition mul (s : string) (n : Z) : string := repeat_string s (Z.to_nat n).

(** [int(s)] for a string of decimal digits; [None] stands for the
    [ValueError] raised on any other character or on the empty string. *)
Fixpoint int_digits (acc : Z) (s : string) : option Z :=
  match s with
  | EmptyString => Some acc
  | String c s' =>
      match Ascii.is_nat c with
      | Some d => int_digits (10 * acc + Z.of_nat d) s'
      | None => None
      end
  end.

Definition int (s : string) : option Z :=
  match s with
  | EmptyString => None
  | _ => int_digits 0 s
  end.


Definition is_digit (c : ascii) : bool := bool_decide (is_Some (Ascii.is_nat c)).

Fixpoint all_digits (s : string) : bool :=
  match s with
  | EmptyString => true
  | String c s' => is_digit c && all_digits s'
  end.

(** [Random._randbelow(n)] for [n > 0]: the library returns an integer of
    [[0, n)] computed from the words of its generator. The model consumes
    one word [raw] and reduces it modulo [n]: every value of the range
    arises for some word, and no other value does. *)
Definition randbelow (n : Z) (raw : N) : Z := Z.of_N raw mod n.

(** [random()]: a float [k * 2**-53] with [0 <= k < 2**53], kept as the
    exact rational it denotes. *)
Definition random_of_word (raw : N) : Q :=
  Qmake (Z.of_N raw mod 2 ^ 53) (2 ^ 53)%positive.

(** [uuid.uuid4()]: [UUID(bytes=os.urandom(16), version=4)]. The sixteen
    bytes are read as a big-endian integer [b]; the constructor then forces
    the RFC 4122 variant and the version number into it. *)
Definition uuid4_of_bytes (b : N) : N :=
  let int := (b mod 2 ^ 128)%N in
  let int := N.ldiff int (N.shiftl 0xc000 48) in
  let int := N.lor int (N.shiftl 0x8000 48) in
  let int := N.ldiff int (N.shiftl 0xf000 64) in
  N.lor int (N.shiftl 4 76).

Definition hex_alphabet : list ascii := list_ascii_of_string "0123456789abcdef".

Definition hex_digit (d : N) : ascii :=
  nth (N.to_nat d) hex_alphabet "0"%char.

(** The [w] low hexadecimal digits of [n], least significant first. *)
Fixpoint hex_rev (w : nat) (n : N) : list ascii :=
  match w with
  | O => []
  | S w' => hex_digit (n mod 16)%N :: hex_rev w' (n / 16)%N
  end.

(** ['%032x' % n] for [n < 2**128]. *)
Definition hex32 (n : N) : list ascii := rev (hex_rev 32 n).

(** [l[a:b]] for [0 <= a <= b]. *)
Definition slice {A} (a b : nat) (l : list A) : list A := take (b - a) (drop a l).

(** [UUID.__str__]: the 32 hexadecimal digits in groups of 8-4-4-4-12. *)
Definition dashed (hex : list ascii) : list ascii :=
  slice 0 8 hex ++ "-"%char :: slice 8 12 hex ++ "-"%char :: slice 12 16 hex
    ++ "-"%char :: slice 16 20 hex ++ "-"%char :: drop 20 hex.

Definition uuid_str (n : N) : string := string_of_list_ascii (dashed (hex32 n)).

End Py.

(** ** The script *)

Module Producer.

(** *** Data *)

(** The dictionary [value] built at each iteration: its five keys are
    fixed, so it is a record. *)
Record Value := mkValue {
  account_id : string;
  account_class : string;
  transaction_amount : Z;
  transaction_source : string;
  Timestamp : Z
}.

Definition retailers : list string :=
  [ "Billy Bob's Shop"; "Tasty Pete's Burgers"; "Mal-Wart"; "Bikey Bikes";
    "Board Game Grove"; "Food Emporium" ].

(** [f"A{'0'*(10-len(str(account)))}{account}"] *)
Definition format_account_id (account : Z) : string :=
  "A" +:+ Py.mul "0" (10 - Py.len (Py.str account)) +:+ Py.str account.

(** ["Gold" if account >= 8 else "Silver"] *)
Definition class_of_account (account : Z) : string :=
  if bool_decide (account >= 8) then "Gold" else "Silver".

(** [{**serializer.extra_headers, "uuid": str(uuid.uuid4())}]: the entries
    of [extra] in order, then the key ["uuid"], which replaces an entry of
    the same name. *)
Definition merge_headers (extra : gmap string string) (token : string)
  : gmap string string :=
  <["uuid" := token]> extra.

(** *** The streaming library, as the script sees it *)

(** What [topic.serialize] returns: an envelope with the three payloads
    that [producer.produce] takes. Their representation belongs to the
    library. *)
Record Serialized {wire_headers wire : Type} := mkSerialized {
  ser_headers : wire_headers;
  ser_key : wire;
  ser_value : wire
}.
Arguments Serialized : clear implicits.

Class Environment := {
  (** exceptions of the library, payload types, state of the library and
      of the broker behind it *)
  lib_error : Type;
  wire_headers : Type;
  wire : Type;
  world : Type;
  (** what the generator of the [random] module yields at its k-th draw,
      what [os.urandom(16)] returns at its k-th call, read as an integer,
      and what [time.time_ns()] reads at its k-th call *)
  mt_word : nat → N;
  urandom16 : nat → N;
  clock_ns : nat → Z;
  (** [topic.name] and [serializer.extra_headers] *)
  topic_name : string;
  extra_headers : gmap string string;
  (** [app.get_producer()], [topic.serialize(key=, value=, headers=)],
      [producer.produce(topic=, headers=, key=, value=)] and the flush
      that releases the producer *)
  lib_get_producer : world → option lib_error * world;
  lib_serialize : world → string → Value → gmap string string →
                  (lib_error + Serialized wire_headers wire) * world;
  lib_produce : world → string → wire_headers → wire → wire →
                option lib_error * world;
  lib_flush : world → world
}.

Section Script.
Context {env : Environment}.

(** Python exceptions: the two built-in ones that the standard library
    calls of the script can raise, and those of the streaming library,
    carried as they are. *)
Inductive Exn :=
| ValueError
| IndexError
| LibraryError (e : lib_error).

(** *** Observable effects *)
Inductive Event :=
| EvAcquire
| EvPrint (v : Value)
| EvSerialize (k : string) (v : Value) (h : gmap string string)
              (r : lib_error + Serialized wire_headers wire)
| EvProduce (t : string) (h : wire_headers) (k v : wire) (r : option lib_error)
| EvSleep (d : Q)
| EvRelease (exc : option Exn).

Record State := mkState {
  st_world : world;
  st_rng : nat;       (* words drawn from the generator of [random] *)
  st_uuid : nat;      (* calls of [uuid.uuid4] *)
  st_clock : nat;     (* calls of [time.time_ns] *)
  st_trace : list Event  (* effects so far, oldest first *)
}.

Definition init (w : world) : State :=
  {| st_world := w; st_rng := 0; st_uuid := 0; st_clock := 0; st_trace := [] |}.

(** *** State and exception monad *)
Inductive result (A : Type) :=
| Return (a : A)
| Raise (e : Exn).
Arguments Return {A} a.
Arguments Raise {A} e.

Definition M (A : Type) : Type := State → result A * State.

#[global] Instance M_ret : MRet M := λ A a s, (Return a, s).
#[global] Instance M_bind : MBind M := λ A B f m s,
  match m s with
  | (Return a, s') => f a s'
  | (Raise e, s') => (Raise e, s')
  end.

Definition raise {A} (e : Exn) : M A := λ s, (Raise e, s).

Definition emit (ev : Event) (s : State) : State :=
  {| st_world := st_world s; st_rng := st_rng s; st_uuid := st_uuid s;
     st_clock := st_clock s; st_trace := st_trace s ++ [ev] |}.

Definition set_world (w : world) (s : State) : State :=
  {| st_world := w; st_rng := st_rng s; st_uuid := st_uuid s;
     st_clock := st_clock s; st_trace := st_trace s |}.

(** *** Standard library calls *)

Definition advance_rng (s : State) : State :=
  {| st_world := st_world s; st_rng := S (st_rng s); st_uuid := st_uuid s;
     st_clock := st_clock s; st_trace := st_trace s |}.

Definition next_word : M N := λ s, (Return (mt_word (st_rng s)), advance_rng s).

(** [randint(a, b)] is [randrange(a, b+1)], which raises [ValueError] on
    an empty range and returns [a + _randbelow(b+1-a)] otherwise. *)
Definition randint (a b : Z) : M Z :=
  let width := b + 1 - a in
  if bool_decide (width > 0)
  then raw ← next_word; mret (a + Py.randbelow width raw)
  else raise ValueError.

(** [choice(seq)]: [IndexError] on an empty sequence, and
    [seq[_randbelow(len(seq))]] otherwise. *)
Definition choice {A} (seq : list A) : M A :=
  match seq with
  | [] => raise IndexError
  | _ =>
      raw ← next_word;
      match seq !! Z.to_nat (Py.randbelow (Z.of_nat (length seq)) raw) with
      | Some x => mret x
      | None => raise IndexError
      end
  end.

Definition random : M Q :=
  raw ← next_word; mret (Py.random_of_word raw).

Definition time_ns : M Z := λ s,
  (Return (clock_ns (st_clock s)),
   {| st_world := st_world s; st_rng := st_rng s; st_uuid := st_uuid s;
      st_clock := S (st_clock s); st_trace := st_trace s |}).

Definition uuid4 : M N := λ s,
  (Return (Py.uuid4_of_bytes (urandom16 (st_uuid s))),
   {| st_world := st_world s; st_rng := st_rng s; st_uuid := S (st_uuid s);
      st_clock := st_clock s; st_trace := st_trace s |}).

Definition print (v : Value) : M unit := λ s, (Return tt, emit (EvPrint v) s).

Definition sleep (d : Q) : M unit := λ s, (Return tt, emit (EvSleep d) s).

(** *** Streaming library calls: each one is logged with its outcome *)

Definition serialize (k : string) (v : Value) (h : gmap string string)
  : M (Serialized wire_headers wire) := λ s,
  let '(r, w) := lib_serialize (st_world s) k v h in
  let s' := emit (EvSerialize k v h r) (set_world w s) in
  match r with
  | inl e => (Raise (LibraryError e), s')
  | inr sz => (Return sz, s')
  end.

Definition produce (t : string) (h : wire_headers) (k v : wire) : M unit := λ s,
  let '(r, w) := lib_produce (st_world s) t h k v in
  let s' := emit (EvProduce t h k v r) (set_world w s) in
  match r with
  | Some e => (Raise (LibraryError e), s')
  | None => (Return tt, s')
  end.

(** [app.get_producer()] and the entry into the [with] block, which binds
    the producer it returned to [producer]. *)
Definition get_producer : M unit := λ s,
  let '(r, w) := lib_get_producer (st_world s) in
  match r with
  | Some e => (Raise (LibraryError e), set_world w s)
  | None => (Return tt, emit EvAcquire (set_world w s))
  end.

(** Modelled from the spec: the producer's [__exit__] method, which is
    not part of the script. The spec has the scoped acquisition
    guarantee "release (flush/close) on all exit paths, including
    failure" and has failures "propagate unmodified": the method flushes
    the producer and returns nothing, so that it swallows no
    exception. *)
Definition producer_exit (exc : option Exn) : M bool := λ s,
  (Return false, emit (EvRelease exc) (set_world (lib_flush (st_world s)) s)).

(** The exception that [__exit__] receives, by outcome of the body. *)
Definition exc_info {A} (r : result A) : option Exn :=
  match r with Return _ => None | Raise e => Some e end.

(** The [with] statement of Python around a body, the context manager
    being entered already: [__exit__] is called with the exception of
    the body, if any, and that exception is raised again unless
    [__exit__] returns a true value. *)
Definition with_producer (body : M unit) : M unit := λ s,
  match body s with
  | (Return a, s') =>
      match producer_exit (exc_info (Return a)) s' with
      | (Return _, s'') => (Return tt, s'')
      | (Raise e, s'') => (Raise e, s'')
      end
  | (Raise e, s') =>
      match producer_exit (exc_info (@Raise unit e)) s' with
      | (Return true, s'') => (Return tt, s'')
      | (Return false, s'') => (Raise e, s'')
      | (Raise e', s'') => (Raise e', s'')
      end
  end.

(** *** The loop *)

(** The dictionary literal: its entries are evaluated in order. *)
Definition make_value (account amount : Z) (source : string) (ts : Z) : Value :=
  {| account_id := format_account_id account;
     account_class := class_of_account account;
     transaction_amount := amount;
     transaction_source := source;
     Timestamp := ts |}.

(** The body of the loop, from the draw of [account] to the call of
    [producer.produce]. *)
Definition iteration : M unit :=
  account ← randint 0 10;
  let account_id := format_account_id account in
  amount ← randint (-2500) (-1);
  source ← choice retailers;
  ts ← time_ns;
  let value := make_value account amount source ts in
  print value;;
  token ← uuid4;
  serialized ← serialize account_id value
                 (merge_headers extra_headers (Py.uuid_str token));
  produce topic_name (ser_headers serialized) (ser_key serialized)
          (ser_value serialized).

(** [while i < 10000: ...; i += 1; sleep(random())]. The counter [i] is
    only touched by the loop itself, so it is the argument of the
    recursion; [10000 - i] decreases at each turn. *)
Equations? while_loop (i : Z) (s : State) : result unit * State
  by wf (Z.to_nat (10000 - i)) lt :=
while_loop i s with decide (i < 10000) => {
  | left _ with iteration s => {
      | (Return _, s1) with (d ← random; sleep d) s1 => {
          | (Return _, s2) => while_loop (i + 1) s2
          | (Raise e, s2) => (Raise e, s2) }
      | (Raise e, s1) => (Raise e, s1) }
  | right _ => (Return tt, s) }.
Proof. lia. Qed.

(** [i = 0] and the [with] block. *)
Definition main : M unit :=
  get_producer;;
  with_producer (while_loop 0).

(** *** Reading a trace *)

Definition is_print (ev : Event) : bool :=
  match ev with EvPrint _ => true | _ => false end.

Definition count (p : Event → bool) (tr : list Event) : nat :=
  length (List.filter p tr).

Definition serialize_headers (tr : list Event) : list (gmap string string) :=
  omap (λ ev, match ev with EvSerialize _ _ h _ => Some h | _ => None end) tr.

Definition is_produce (ev : Event) : bool :=
  match ev with EvProduce _ _ _ _ _ => true | _ => false end.

Definition is_sleep (ev : Event) : bool :=
  match ev with EvSleep _ => true | _ => false end.

(** The exception of a library call that raised. *)
Definition failure (ev : Event) : option lib_error :=
  match ev with
  | EvSerialize _ _ _ (inl e) => Some e
  | EvProduce _ _ _ _ (Some e) => Some e
  | _ => None
  end.

(** The events of the loop body, as opposed to those of the [with]
    statement. *)
Definition in_loop (ev : Event) : bool :=
  match ev with EvAcquire | EvRelease _ => false | _ => true end.

(** The reading of "the suspension occurs only between iterations": a
    sleep separates two turns, so that a call of [producer.produce]
    follows every sleep. *)
Definition sleeps_only_between_turns (tr : list Event) : Prop :=
  ∀ pre d post, tr = pre ++ EvSleep d :: post →
                ∃ ev, ev ∈ post ∧ is_produce ev = true.

(** An event [value] as the dictionary literal builds it from its draws. *)
Definition generated (v : Value) : Prop :=
  ∃ account amount source ts,
    0 ≤ account ≤ 10 ∧ -2500 ≤ amount ≤ -1 ∧ source ∈ retailers ∧
    v = make_value account amount source ts.

Definition message_headers (n : nat) : gmap string string :=
  merge_headers extra_headers (Py.uuid_str (Py.uuid4_of_bytes (urandom16 n))).

(** A library call with these arguments can have this outcome. *)
Definition serialize_returns (k : string) (v : Value) (h : gmap string string)
    (r : lib_error + Serialized wire_headers wire) : Prop :=
  ∃ w, (lib_serialize w k v h).1 = r.

Definition produce_returns (t : string) (h : wire_headers) (k v : wire)
    (r : option lib_error) : Prop :=
  ∃ w, (lib_produce w t h k v).1 = r.

(** The traces of the loop started at counter [i] with [u] identifiers
    drawn so far, by outcome. *)
Inductive loop_trace : Z → nat → result unit → list Event → Prop :=
| loop_exit i u :
    ¬ i < 10000 →
    loop_trace i u (Return tt) []
| loop_turn i u v sz d r tl :
    i < 10000 → generated v →
    serialize_returns (account_id v) v (message_headers u) (inr sz) →
    produce_returns topic_name (ser_headers sz) (ser_key sz) (ser_value sz) None →
    (∃ raw, d = Py.random_of_word raw) →
    loop_trace (i + 1) (S u) r tl →
    loop_trace i u r
      (EvPrint v :: EvSerialize (account_id v) v (message_headers u) (inr sz)
         :: EvProduce topic_name (ser_headers sz) (ser_key sz) (ser_value sz) None
         :: EvSleep d :: tl)
| loop_serialize_raises i u v e :
    i < 10000 → generated v →
    serialize_returns (account_id v) v (message_headers u) (inl e) →
    loop_trace i u (Raise (LibraryError e))
      [EvPrint v; EvSerialize (account_id v) v (message_headers u) (inl e)]
| loop_produce_raises i u v sz e :
    i < 10000 → generated v →
    serialize_returns (account_id v) v (message_headers u) (inr sz) →
    produce_returns topic_name (ser_headers sz) (ser_key sz) (ser_value sz) (Some e) →
    loop_trace i u (Raise (LibraryError e))
      [EvPrint v; EvSerialize (account_id v) v (message_headers u) (inr sz);
       EvProduce topic_name (ser_headers sz) (ser_key sz) (ser_value sz) (Some e)].

(** An environment whose serializer and producer never raise. *)
Definition reliable : Prop :=
  (∀ w k v h, ∃ sz, (lib_serialize w k v h).1 = inr sz) ∧
  (∀ w t h k v, (lib_produce w t h k v).1 = None).

(** *** More readers of a trace *)

Definition is_serialize (ev : Event) : bool :=
  match ev with EvSerialize _ _ _ _ => true | _ => false end.

(** A call of [producer.produce] that returned. *)
Definition is_published (ev : Event) : bool :=
  match ev with EvProduce _ _ _ _ None => true | _ => false end.

(** The values printed and the durations slept, in order. *)
Definition printed (tr : list Event) : list Value :=
  omap (λ ev, match ev with EvPrint v => Some v | _ => None end) tr.

Definition slept (tr : list Event) : list Q :=
  omap (λ ev, match ev with EvSleep d => Some d | _ => None end) tr.

(** The event that a turn builds when the generator of [random] has been
    drawn from [r] times and the clock read [c] times before it: the
    account, the amount and the retailer come from the next three draws,
    in this order, and the timestamp from the next reading. *)
Definition drawn (r c : nat) (v : Value) : Prop :=
  ∃ source,
    retailers !! Z.to_nat (Py.randbelow (Z.of_nat (length retailers)) (mt_word (2 + r)))
      = Some source ∧
    v = make_value (0 + Py.randbelow (10 + 1 - 0) (mt_word r))
                   (-2500 + Py.randbelow (-1 + 1 - -2500) (mt_word (1 + r)))
                   source (clock_ns c).

(** The traces of the loop by the draws behind them; [ser] and [prod]
    stand for the calls of the streaming library of a turn. *)
Inductive loop_draws : nat → nat → list Event → Prop :=
| draws_exit r c :
    loop_draws r c []
| draws_turn r c v ser prod tl :
    drawn r c v → is_serialize ser = true → is_produce prod = true →
    loop_draws (4 + r) (S c) tl →
    loop_draws r c
      (EvPrint v :: ser :: prod :: EvSleep (Py.random_of_word (mt_word (3 + r))) :: tl)
| draws_serialize_raises r c v ser :
    drawn r c v → is_serialize ser = true →
    loop_draws r c [EvPrint v; ser]
| draws_produce_raises r c v ser prod :
    drawn r c v → is_serialize ser = true → is_produce prod = true →
    loop_draws r c [EvPrint v; ser; prod].

End Script.

Arguments Return {env A} a.
Arguments Raise {env A} e.

End Producer.

(** ** Two environments to run the script in *)

Module Demo.
Import Producer.

(** A serializer that keeps the key and the headers and renders the value
    as a line of text. *)
Definition render (v : Value) : string :=
  account_id v +:+ "," +:+ account_class v +:+ "," +:+ transaction_source v.

Definition to_wire (k : string) (v : Value) (h : gmap string string)
  : Serialized (gmap string string) string :=
  {| ser_headers := h; ser_key := k; ser_value := render v |}.

(** The serializer already has a header named ["uuid"]. The state of the
    library is the number of calls of [produce] so far. *)
Definition quix_headers : gmap string string :=
  {[ "__Q_ModelKey" := "TimeseriesData"; "uuid" := "serializer-default" ]}.

(** The second call of [producer.produce] raises. *)
Definition flaky : Environment := {|
  lib_error := string;
  wire_headers := gmap string string;
  wire := string;
  world := nat;
  mt_word := λ k, N.of_nat (7 * k + 3);
  urandom16 := λ k, N.of_nat k;
  clock_ns := λ k, Z.of_nat k + 1700000000000000000;
  topic_name := "demo-qts__purchase_events";
  extra_headers := quix_headers;
  lib_get_producer := λ w, (None, w);
  lib_serialize := λ w k v h, (inr (to_wire k v h), w);
  lib_produce := λ w t h k v,
    (if bool_decide (w = 1%nat) then Some "BufferError" else None, S w);
  lib_flush := λ w, w
|}.

(** No call raises. *)
Definition steady : Environment := {|
  lib_error := string;
  wire_headers := gmap string string;
  wire := string;
  world := nat;
  mt_word := λ k, N.of_nat (7 * k + 3);
  urandom16 := λ k, N.of_nat k;
  clock_ns := λ k, Z.of_nat k + 1700000000000000000;
  topic_name := "demo-qts__purchase_events";
  extra_headers := quix_headers;
  lib_get_producer := λ w, (None, w);
  lib_serialize := λ w k v h, (inr (to_wire k v h), w);
  lib_produce := λ w t h k v, (None, S w);
  lib_flush := λ w, w
|}.

(** The two runs, from a library that has produced nothing yet. *)
Definition flaky_run : result unit * State := @main flaky (@init flaky 0%nat).
Definition steady_run : result unit * State := @main steady (@init steady 0%nat).

(** The first event of both runs. *)
Definition first_value : Value :=
  {| account_id := "A0000000003";
     account_class := "Silver";
     transaction_amount := -2490;
     transaction_source := "Food Emporium";
     Timestamp := 1700000000000000000 |}.

(** The second event of the flaky run, and the call of [producer.produce]
    that raises on it. *)
Definition second_value : Value :=
  {| account_id := "A0000000009";
     account_class := "Gold";
     transaction_amount := -2462;
     transaction_source := "Bikey Bikes";
     Timestamp := 1700000000000000001 |}.

Definition buffer_error : @Exn flaky :=
  @LibraryError flaky ("BufferError" : @lib_error flaky).

Definition failed_produce : @Event flaky :=
  @EvProduce flaky "demo-qts__purchase_events"
    (@message_headers flaky 1 : @wire_headers flaky)
    ("A0000000009" : @wire flaky) (render second_value : @wire flaky)
    (Some ("BufferError" : @lib_error flaky)).

(** A generator that always yields the same word, so that every event is
    on account 3; the third call of [producer.produce] raises. *)
Definition stuttering : Environment := {|
  lib_error := string;
  wire_headers := gmap string string;
  wire := string;
  world := nat;
  mt_word := λ k, 3%N;
  urandom16 := λ k, N.of_nat k;
  clock_ns := λ k, Z.of_nat k + 1700000000000000000;
  topic_name := "demo-qts__purchase_events";
  extra_headers := quix_headers;
  lib_get_producer := λ w, (None, w);
  lib_serialize := λ w k v h, (inr (to_wire k v h), w);
  lib_produce := λ w t h k v,
    (if bool_decide (w = 2%nat) then Some "BufferError" else None, S w);
  lib_flush := λ w, w
|}.

Definition stuttering_run : result unit * State :=
  @main stuttering (@init stuttering 0%nat).

(** The first turn of the flaky run: the call of [topic.serialize] on the
    first event and the call of [producer.produce] on what it returned. *)
Definition first_serialize : @Event flaky :=
  @EvSerialize flaky "A0000000003" first_value (@message_headers flaky 0)
    (inr (to_wire "A0000000003" first_value (@message_headers flaky 0))).

Definition first_produce : @Event flaky :=
  @EvProduce flaky "demo-qts__purchase_events"
    (@message_headers flaky 0 : @wire_headers flaky)
    ("A0000000003" : @wire flaky) (render first_value : @wire flaky) None.

(** An entropy source that returns the same sixteen bytes at every call;
    the second call of [producer.produce] raises. *)
Definition colliding : Environment := {|
  lib_error := string;
  wire_headers := gmap string string;
  wire := string;
  world := nat;
  mt_word := λ k, N.of_nat (7 * k + 3);
  urandom16 := λ k, 0%N;
  clock_ns := λ k, Z.of_nat k + 1700000000000000000;
  topic_name := "demo-qts__purchase_events";
  extra_headers := quix_headers;
  lib_get_producer := λ w, (None, w);
  lib_serialize := λ w k v h, (inr (to_wire k v h), w);
  lib_produce := λ w t h k v,
    (if bool_decide (w = 1%nat) then Some "BufferError" else None, S w);
  lib_flush := λ w, w
|}.

Definition colliding_run : result unit * State :=
  @main colliding (@init colliding 0%nat).

End Demo.

(** * Properties of the script *)

Import Producer.

(** ** The standard library calls *)

Section PyFacts.

Lemma small_account_cases (account : Z) :
  0 ≤ account ≤ 10 → account ∈ [0; 1; 2; 3; 4; 5; 6; 7; 8; 9; 10].
Proof.
  intros H. assert (Hn : ∃ n : nat, account = Z.of_nat n ∧ (n ≤ 10)%nat).
  { exists (Z.to_nat account). lia. }
  destruct Hn as (n & -> & Hn).
  do 11 (destruct n as [|n]; [simpl; repeat first [by left | right]|]). lia.
Qed.

(** The identifier of an account of [[0, 10]]: ["A"], then ten decimal
    digits that read back as the account. *)
Lemma format_account_id_small account :
  0 ≤ account ≤ 10 →
  ∃ digits,
    format_account_id account = String "A" digits ∧
    digits = Py.mul "0" (10 - Py.len (Py.str account)) +:+ Py.str account ∧
    String.length digits = 10%nat ∧
    Py.all_digits digits = true ∧
    Py.int digits = Some account.
Proof.
  intros H%small_account_cases. eexists. split; [reflexivity|]. split; [reflexivity|].
  repeat (apply elem_of_cons in H as [-> | H]; [by vm_compute|]).
  by apply elem_of_nil in H.
Qed.

Lemma hex_rev_length w n : length (Py.hex_rev w n) = w.
Proof. revert n. induction w as [|w IH]; intros n; simpl; [done | by rewrite IH]. Qed.

Lemma hex_digit_inj d d' :
  (d < 16)%N → (d' < 16)%N → Py.hex_digit d = Py.hex_digit d' → d = d'.
Proof.
  intros Hd Hd' Heq.
  assert (Hc : ∀ x, (x < 16)%N → x ∈ [0;1;2;3;4;5;6;7;8;9;10;11;12;13;14;15]%N).
  { intros x Hx. assert (Hn : ∃ n : nat, x = N.of_nat n ∧ (n < 16)%nat).
    { exists (N.to_nat x). lia. }
    destruct Hn as (n & -> & Hn).
    do 16 (destruct n as [|n]; [simpl; repeat first [by left | right]|]). lia. }
  apply Hc in Hd, Hd'.
  repeat (apply elem_of_cons in Hd as [-> | Hd];
          [repeat (apply elem_of_cons in Hd' as [-> | Hd']; [done || by vm_compute in Heq|]);
           by apply elem_of_nil in Hd'|]).
  by apply elem_of_nil in Hd.
Qed.

Lemma hex_rev_inj w n m :
  (n < 16 ^ N.of_nat w)%N → (m < 16 ^ N.of_nat w)%N →
  Py.hex_rev w n = Py.hex_rev w m → n = m.
Proof.
  revert n m. induction w as [|w IH]; intros n m Hn Hm Heq.
  - simpl in Hn, Hm. lia.
  - simpl in Heq. inversion Heq as [[Hd Hrest]].
    apply hex_digit_inj in Hd; [| by apply N.mod_lt | by apply N.mod_lt].
    replace (N.of_nat (S w)) with (N.succ (N.of_nat w)) in Hn, Hm by lia.
    rewrite N.pow_succ_r' in Hn, Hm.
    apply IH in Hrest.
    + rewrite (N.div_mod n 16), (N.div_mod m 16) by done. congruence.
    + apply N.Div0.div_lt_upper_bound. lia.
    + apply N.Div0.div_lt_upper_bound. lia.
Qed.

Lemma hex32_inj n m :
  (n < 2 ^ 128)%N → (m < 2 ^ 128)%N → Py.hex32 n = Py.hex32 m → n = m.
Proof.
  intros Hn Hm Heq. unfold Py.hex32 in Heq.
  apply (f_equal (@rev ascii)) in Heq. rewrite !rev_involutive in Heq.
  apply (hex_rev_inj 32); [exact Hn | exact Hm | exact Heq].
Qed.

(** Taking the dashes out of the printed form gives the digits back. *)
Lemma dashed_undo (hex : list ascii) :
  length hex = 32%nat →
  take 8 (Py.dashed hex) ++ take 4 (drop 9 (Py.dashed hex))
    ++ take 4 (drop 14 (Py.dashed hex)) ++ take 4 (drop 19 (Py.dashed hex))
    ++ drop 24 (Py.dashed hex) = hex.
Proof.
  intros Hlen.
  do 32 (destruct hex as [|? hex]; [discriminate Hlen|]).
  destruct hex; [reflexivity | discriminate Hlen].
Qed.

Lemma uuid_str_inj n m :
  (n < 2 ^ 128)%N → (m < 2 ^ 128)%N → Py.uuid_str n = Py.uuid_str m → n = m.
Proof.
  intros Hn Hm Heq. unfold Py.uuid_str in Heq.
  apply (f_equal list_ascii_of_string) in Heq.
  rewrite !list_ascii_of_string_of_list_ascii in Heq.
  apply hex32_inj; [exact Hn | exact Hm |].
  rewrite <- (dashed_undo (Py.hex32 n)), <- (dashed_undo (Py.hex32 m)).
  - by rewrite Heq.
  - unfold Py.hex32. by rewrite length_rev, hex_rev_length.
  - unfold Py.hex32. by rewrite length_rev, hex_rev_length.
Qed.

Lemma lor_below a b k : (a < 2 ^ k)%N → (b < 2 ^ k)%N → (N.lor a b < 2 ^ k)%N.
Proof.
  intros Ha Hb.
  destruct (N.eq_dec (N.lor a b) 0%N) as [-> | Hnz]; [lia|].
  apply N.log2_lt_pow2; [lia|]. rewrite N.log2_lor.
  destruct (N.eq_dec a 0%N) as [-> | Ha0]; destruct (N.eq_dec b 0%N) as [-> | Hb0].
  - done.
  - rewrite N.max_r by (simpl; lia). apply N.log2_lt_pow2; lia.
  - rewrite N.max_l by (simpl; lia). apply N.log2_lt_pow2; lia.
  - apply N.max_lub_lt; apply N.log2_lt_pow2; lia.
Qed.

Lemma uuid4_of_bytes_below b : (Py.uuid4_of_bytes b < 2 ^ 128)%N.
Proof.
  unfold Py.uuid4_of_bytes.
  apply lor_below; [|done].
  eapply N.le_lt_trans; [apply N.ldiff_le_l|].
  apply lor_below; [|done].
  eapply N.le_lt_trans; [apply N.ldiff_le_l|].
  by apply N.mod_lt.
Qed.

(** [uuid4] leaves the low bit of the random bytes as it is. *)
Lemma uuid4_of_bytes_bit0 b : N.testbit (Py.uuid4_of_bytes b) 0 = N.testbit b 0.
Proof.
  unfold Py.uuid4_of_bytes.
  rewrite N.lor_spec, N.ldiff_spec, N.lor_spec, N.ldiff_spec.
  rewrite N.mod_pow2_bits_low by lia.
  change (N.testbit (N.shiftl 49152 48) 0) with false.
  change (N.testbit (N.shiftl 32768 48) 0) with false.
  change (N.testbit (N.shiftl 61440 64) 0) with false.
  change (N.testbit (N.shiftl 4 76) 0) with false.
  simpl. by rewrite !andb_true_r, !orb_false_r.
Qed.

Lemma uuid4_of_counter_fresh (k : nat) :
  Py.uuid4_of_bytes (N.of_nat k) ≠ Py.uuid4_of_bytes (N.of_nat (S k)).
Proof.
  intros Heq. apply (f_equal (λ n, N.testbit n 0)) in Heq.
  rewrite !uuid4_of_bytes_bit0, !N.bit0_odd, Nat2N.inj_succ, N.odd_succ in Heq.
  rewrite <- N.negb_odd in Heq. by destruct (N.odd (N.of_nat k)).
Qed.
End PyFacts.

(** ** One turn of the loop, and the loop *)

Section LoopFacts.
Context {env : Environment}.

Lemma randbelow_range n raw : 0 < n → 0 ≤ Py.randbelow n raw < n.
Proof. intros Hn. unfold Py.randbelow. apply Z.mod_pos_bound. exact Hn. Qed.

Lemma bind_run {A B} (m : M A) (f : A → M B) s :
  (m ≫= f) s = match m s with
               | (Return a, s') => f a s'
               | (Raise e, s') => (Raise e, s')
               end.
Proof. reflexivity. Qed.

Lemma randint_run a b s :
  b + 1 - a > 0 →
  randint a b s = (Return (a + Py.randbelow (b + 1 - a) (mt_word (st_rng s))), advance_rng s).
Proof.
  intros Hw. unfold randint. rewrite bool_decide_eq_true_2 by exact Hw. reflexivity.
Qed.

Lemma choice_retailers_run s :
  ∃ source, source ∈ retailers ∧ choice retailers s = (Return source, advance_rng s).
Proof.
  unfold choice, retailers at 2. rewrite bind_run. unfold next_word.
  fold retailers.
  set (k := Z.to_nat _).
  assert (Hk : (k < length retailers)%nat).
  { subst k. pose proof (randbelow_range (Z.of_nat (length retailers)) (mt_word (st_rng s))) as H.
    simpl in H. simpl. lia. }
  destruct (lookup_lt_is_Some_2 retailers k Hk) as [source Hs].
  exists source. split; [by eapply list_elem_of_lookup_2|].
  fold retailers.
  rewrite Hs. reflexivity.
Qed.

Lemma iteration_cases s :
  ∃ v, generated v ∧
    let h := message_headers (st_uuid s) in
    (∃ sz s', iteration s = (Return tt, s') ∧ st_uuid s' = S (st_uuid s) ∧
       serialize_returns (account_id v) v h (inr sz) ∧
       produce_returns topic_name (ser_headers sz) (ser_key sz) (ser_value sz) None ∧
       st_trace s' = st_trace s ++
         [EvPrint v; EvSerialize (account_id v) v h (inr sz);
          EvProduce topic_name (ser_headers sz) (ser_key sz) (ser_value sz) None])
    ∨ (∃ e s', iteration s = (Raise (LibraryError e), s') ∧
         serialize_returns (account_id v) v h (inl e) ∧
         st_trace s' = st_trace s ++ [EvPrint v; EvSerialize (account_id v) v h (inl e)])
    ∨ (∃ sz e s', iteration s = (Raise (LibraryError e), s') ∧
         serialize_returns (account_id v) v h (inr sz) ∧
         produce_returns topic_name (ser_headers sz) (ser_key sz) (ser_value sz) (Some e) ∧
         st_trace s' = st_trace s ++
           [EvPrint v; EvSerialize (account_id v) v h (inr sz);
            EvProduce topic_name (ser_headers sz) (ser_key sz) (ser_value sz) (Some e)]).
Proof.
  destruct (iteration s) as [r s'] eqn:Hrun.
  unfold iteration in Hrun.
  rewrite bind_run, randint_run in Hrun by lia.
  rewrite bind_run, randint_run in Hrun by lia.
  rewrite bind_run in Hrun.
  destruct (choice_retailers_run (advance_rng (advance_rng s))) as (source & Hsrc & Hch).
  rewrite Hch in Hrun. clear Hch.
  set (account := 0 + _) in Hrun. set (amount := -2500 + _) in Hrun.
  rewrite bind_run in Hrun. unfold time_ns in Hrun.
  set (ts := clock_ns _) in Hrun.
  exists (make_value account amount source ts). split.
  { exists account, amount, source, ts.
    pose proof (randbelow_range (10 + 1 - 0) (mt_word (st_rng s))).
    pose proof (randbelow_range (-1 + 1 - -2500) (mt_word (st_rng (advance_rng s)))).
    subst account amount. repeat split; try lia; done. }
  rewrite bind_run in Hrun. unfold print in Hrun.
  rewrite bind_run in Hrun. unfold uuid4 in Hrun.
  rewrite bind_run in Hrun. unfold serialize, produce in Hrun. simpl in Hrun.
  destruct (lib_serialize _ _ _ _) as [[e | sz] w1] eqn:Hser; simpl in Hrun.
  - right; left. exists e, s'. inversion Hrun; subst r s'; clear Hrun.
    split; [reflexivity|]. split; [eexists; exact (f_equal fst Hser)|].
    simpl. by rewrite <- app_assoc.
  - destruct (lib_produce _ _ _ _ _) as [[e |] w2] eqn:Hprod;
      inversion Hrun; subst r s'; clear Hrun.
    + right; right. exists sz, e. eexists. split; [reflexivity|].
      split; [eexists; exact (f_equal fst Hser)|]. split; [eexists; exact (f_equal fst Hprod)|].
      simpl. by rewrite <- !app_assoc.
    + left. exists sz. eexists. split; [reflexivity|]. split; [reflexivity|].
      split; [eexists; exact (f_equal fst Hser)|]. split; [eexists; exact (f_equal fst Hprod)|].
      simpl. by rewrite <- !app_assoc.
Qed.

(** The trace of the loop: what it appends, by outcome. *)
Lemma while_loop_trace i s :
  ∃ tl, st_trace (while_loop i s).2 = st_trace s ++ tl ∧
        loop_trace i (st_uuid s) (while_loop i s).1 tl.
Proof.
  funelim (while_loop i s).
  - exists []. simpl. rewrite app_nil_r. split; [done|]. by constructor.
  - destruct (iteration_cases s) as (v & Hv & Hcases).
    destruct Hcases as [(sz & s' & Hrun & _) | [(e' & s' & Hrun & Hs & Htr)
                                               | (sz & e' & s' & Hrun & Hs & Hp & Htr)]];
      rewrite Heq in Hrun; inversion Hrun; subst; simpl.
    + eexists; split; [exact Htr|]. by constructor.
    + eexists; split; [exact Htr|]. by constructor.
  - destruct H as (tl & Htl & Hloop). simpl in Htl, Hloop.
    destruct (iteration_cases s) as (v & Hv & Hcases).
    destruct Hcases as [(sz & s' & Hrun & Hu & Hs & Hp & Htr) | [(e' & s' & Hrun & _)
                                               | (sz & e' & s' & Hrun & _)]];
      rewrite Heq in Hrun; inversion Hrun; subst s'.
    eexists. split.
    + rewrite Htl, Htr, <- !app_assoc. simpl. reflexivity.
    + apply loop_turn; [done | done | done | done | by eexists |].
      rewrite <- Hu. exact Hloop.
  - discriminate.
Qed.

Lemma main_not_acquired w e w' :
  lib_get_producer w = (Some e, w') →
  main (init w) = (Raise (LibraryError e), set_world w' (init w)).
Proof.
  intros Hget. unfold main. rewrite bind_run. unfold get_producer. simpl.
  rewrite Hget. reflexivity.
Qed.

Lemma main_acquired w w' :
  lib_get_producer w = (None, w') →
  ∃ tl, loop_trace 0 0 (main (init w)).1 tl ∧
        st_trace (main (init w)).2 =
          EvAcquire :: tl ++ [EvRelease (exc_info (main (init w)).1)].
Proof.
  intros Hget. unfold main. rewrite bind_run. unfold get_producer. simpl.
  rewrite Hget. unfold with_producer.
  set (s0 := emit EvAcquire _).
  destruct (while_loop_trace 0 s0) as (tl & Htl & Hloop).
  exists tl. destruct (while_loop 0 s0) as [[[] | e] s1]; simpl in *.
  - split; [exact Hloop|]. rewrite Htl. reflexivity.
  - split; [exact Hloop|]. rewrite Htl. reflexivity.
Qed.


End LoopFacts.

(** ** What a trace of the loop contains *)

Section TraceFacts.
Context {env : Environment}.

Lemma loop_trace_in_loop i u r tl :
  loop_trace i u r tl → Forall (λ ev, in_loop ev = true) tl.
Proof. induction 1; repeat constructor; assumption. Qed.

Lemma loop_trace_printed i u r tl v :
  loop_trace i u r tl → EvPrint v ∈ tl → generated v.
Proof.
  induction 1 as [| i u v' sz d r tl Hi Hv Hs Hp Hd Hloop IH | |]; intros Hin.
  - by apply not_elem_of_nil in Hin.
  - rewrite !elem_of_cons in Hin.
    destruct Hin as [Heq | [Heq | [Heq | [Heq | Hin]]]]; try discriminate; auto.
    by inversion Heq; subst.
  - rewrite !elem_of_cons, elem_of_nil in Hin.
    destruct Hin as [Heq | [Heq | []]]; try discriminate. by inversion Heq; subst.
  - rewrite !elem_of_cons, elem_of_nil in Hin.
    destruct Hin as [Heq | [Heq | [Heq | []]]]; try discriminate. by inversion Heq; subst.
Qed.

Lemma loop_trace_serialize i u r tl k v h res :
  loop_trace i u r tl → EvSerialize k v h res ∈ tl →
  generated v ∧ k = account_id v.
Proof.
  induction 1 as [| i u v' sz d r tl Hi Hv Hs Hp Hd Hloop IH | |]; intros Hin.
  - by apply not_elem_of_nil in Hin.
  - rewrite !elem_of_cons in Hin.
    destruct Hin as [Heq | [Heq | [Heq | [Heq | Hin]]]]; try discriminate; auto.
    by inversion Heq; subst.
  - rewrite !elem_of_cons, elem_of_nil in Hin.
    destruct Hin as [Heq | [Heq | []]]; try discriminate. by inversion Heq; subst.
  - rewrite !elem_of_cons, elem_of_nil in Hin.
    destruct Hin as [Heq | [Heq | [Heq | []]]]; try discriminate. by inversion Heq; subst.
Qed.

Lemma loop_trace_headers i u r tl n h :
  loop_trace i u r tl → serialize_headers tl !! n = Some h →
  h = message_headers (u + n).
Proof.
  intros Hloop. revert n.
  induction Hloop as [| i u v' sz d r tl Hi Hv Hs Hp Hd Hloop IH | |]; intros n Hn;
    simpl in Hn.
  - done.
  - destruct n as [|n]; simpl in Hn.
    + inversion Hn. by rewrite Nat.add_0_r.
    + apply IH in Hn. by rewrite Nat.add_succ_r.
  - destruct n as [|n]; simpl in Hn; [|done]. inversion Hn. by rewrite Nat.add_0_r.
  - destruct n as [|n]; simpl in Hn; [|done]. inversion Hn. by rewrite Nat.add_0_r.
Qed.

(** A run of the loop that returns made every turn from [i] to 9999. *)
Lemma loop_trace_returned i u tl :
  loop_trace i u (Return tt) tl → i ≤ 10000 →
  count is_print tl = Z.to_nat (10000 - i) ∧
  count is_produce tl = Z.to_nat (10000 - i) ∧
  count is_sleep tl = Z.to_nat (10000 - i).
Proof.
  intros Hloop. remember (Return tt) as r eqn:Hr.
  induction Hloop as [| i u v' sz d r tl Hi Hv Hs Hp Hd Hloop IH | |]; intros Hle;
    try discriminate.
  - replace (10000 - i) with 0 by lia. done.
  - destruct IH as (IH1 & IH2 & IH3); [done | lia |].
    unfold count in *. simpl. rewrite IH1, IH2, IH3. lia.
Qed.

Lemma loop_trace_no_failure i u r tl :
  loop_trace i u r tl → Forall (λ ev, failure ev = None) tl → r = Return tt.
Proof.
  induction 1 as [| i u v' sz d r tl Hi Hv Hs Hp Hd Hloop IH | |]; intros Hall.
  - done.
  - apply IH. by do 4 apply Forall_cons_1 in Hall as [_ Hall].
  - apply Forall_cons_1 in Hall as [_ Hall]. apply Forall_cons_1 in Hall as [Hf _]. done.
  - do 2 apply Forall_cons_1 in Hall as [_ Hall]. apply Forall_cons_1 in Hall as [Hf _]. done.
Qed.

Lemma reliable_loop_trace i u r tl :
  reliable → loop_trace i u r tl →
  r = Return tt ∧ Forall (λ ev, failure ev = None) tl.
Proof.
  intros [Hser Hprod].
  induction 1 as [| i u v' sz d r tl Hi Hv Hs Hp Hd Hloop IH
                  | i u v' e Hi Hv Hs | i u v' sz e Hi Hv Hs Hp].
  - done.
  - destruct IH as [-> IH]. split; [done|]. by repeat constructor.
  - destruct Hs as [w Hw]. destruct (Hser w (account_id v') v' (message_headers u)) as [sz Hsz].
    congruence.
  - destruct Hp as [w Hw]. rewrite Hprod in Hw. done.
Qed.

Lemma cons_split {A} (x ev : A) l pre post :
  x :: l = pre ++ ev :: post →
  (pre = [] ∧ x = ev ∧ l = post) ∨ (∃ pre', pre = x :: pre' ∧ l = pre' ++ ev :: post).
Proof.
  destruct pre as [|y pre]; simpl; intros Heq; inversion Heq; subst; eauto.
Qed.

Ltac invert_event :=
  match goal with
  | H : @eq Event _ _ |- _ => inversion H; subst; clear H
  end.

Ltac split_trace H :=
  let pre' := fresh "pre" in
  apply cons_split in H as [(-> & ? & ?) | (pre' & -> & H)];
  [ try discriminate | try (by destruct pre')].

(** A call that raised is the last event of the loop, and the first call
    that raised; its exception is the outcome of the loop. *)
Lemma loop_trace_failure i u r tl pre ev post e :
  loop_trace i u r tl → tl = pre ++ ev :: post → failure ev = Some e →
  post = [] ∧ r = Raise (LibraryError e) ∧ Forall (λ ev', failure ev' = None) pre.
Proof.
  intros Hloop. revert pre.
  induction Hloop as [| i u v' sz d r tl Hi Hv Hs Hp Hd Hloop IH
                      | i u v' e' Hi Hv Hs | i u v' sz e' Hi Hv Hs Hp];
    intros pre Heq Hfail.
  - by destruct pre.
  - split_trace Heq; [by subst|]. split_trace Heq; [by subst|].
    split_trace Heq; [by subst|]. split_trace Heq; [by subst|].
    destruct (IH _ Heq Hfail) as (-> & -> & Hpre). by repeat constructor.
  - split_trace Heq; [by subst|]. split_trace Heq.
    subst. simpl in Hfail. inversion Hfail; subst. by repeat constructor.
  - split_trace Heq; [by subst|]. split_trace Heq; [by subst|]. split_trace Heq.
    subst. simpl in Hfail. inversion Hfail; subst. by repeat constructor.
Qed.

(** A call of [producer.produce] comes right after the call of
    [topic.serialize] that returned its arguments. *)
Lemma loop_trace_produce i u r tl pre t hh kk vv res post :
  loop_trace i u r tl → tl = pre ++ EvProduce t hh kk vv res :: post →
  ∃ pre' v h sz,
    pre = pre' ++ [EvPrint v; EvSerialize (account_id v) v h (inr sz)] ∧
    generated v ∧ t = topic_name ∧
    hh = ser_headers sz ∧ kk = ser_key sz ∧ vv = ser_value sz.
Proof.
  intros Hloop. revert pre.
  induction Hloop as [| i u v' sz d r tl Hi Hv Hs Hp Hd Hloop IH
                      | i u v' e' Hi Hv Hs | i u v' sz e' Hi Hv Hs Hp];
    intros pre Heq.
  - by destruct pre.
  - split_trace Heq. split_trace Heq. split_trace Heq.
    { invert_event. by exists [], v', (message_headers u), sz. }
    split_trace Heq.
    destruct (IH _ Heq) as (pre' & v & h & sz' & -> & Hrest).
    eexists (_ :: _ :: _ :: _ :: pre'), v, h, sz'. split; [reflexivity | exact Hrest].
  - split_trace Heq. split_trace Heq.
  - split_trace Heq. split_trace Heq. split_trace Heq.
    invert_event. by exists [], v', (message_headers u), sz.
Qed.

(** The loop sleeps right after each call of [producer.produce] that
    returned, and at no other point. *)
Lemma loop_trace_sleep_before i u r tl pre d post :
  loop_trace i u r tl → tl = pre ++ EvSleep d :: post →
  ∃ pre' t h k v, pre = pre' ++ [EvProduce t h k v None].
Proof.
  intros Hloop. revert pre.
  induction Hloop as [| i u v' sz d' r tl Hi Hv Hs Hp Hd Hloop IH
                      | i u v' e' Hi Hv Hs | i u v' sz e' Hi Hv Hs Hp];
    intros pre Heq.
  - by destruct pre.
  - split_trace Heq. split_trace Heq. split_trace Heq. split_trace Heq.
    { by eexists [_; _], _, _, _, _. }
    destruct (IH _ Heq) as (pre' & t & h & k & v & ->).
    by eexists (_ :: _ :: _ :: _ :: pre'), t, h, k, v.
  - split_trace Heq. split_trace Heq.
  - split_trace Heq. split_trace Heq. split_trace Heq.
Qed.

Lemma loop_trace_sleep_after i u r tl pre t h k v post :
  loop_trace i u r tl → tl = pre ++ EvProduce t h k v None :: post →
  ∃ d post', post = EvSleep d :: post'.
Proof.
  intros Hloop. revert pre.
  induction Hloop as [| i u v' sz d' r tl Hi Hv Hs Hp Hd Hloop IH
                      | i u v' e' Hi Hv Hs | i u v' sz e' Hi Hv Hs Hp];
    intros pre Heq.
  - by destruct pre.
  - split_trace Heq. split_trace Heq. split_trace Heq.
    { subst. by eexists _, _. }
    split_trace Heq. eauto.
  - split_trace Heq. split_trace Heq.
  - split_trace Heq. split_trace Heq. split_trace Heq.
Qed.

Lemma random_of_word_range raw :
  (0 <= Py.random_of_word raw)%Q ∧ (Py.random_of_word raw < 1)%Q.
Proof.
  unfold Py.random_of_word, Qle, Qlt. simpl.
  pose proof (Z.mod_pos_bound (Z.of_N raw) (2 ^ 53) eq_refl) as H.
  change (Z.pow_pos 2 53) with (2 ^ 53) in H |- *. lia.
Qed.

Lemma loop_trace_sleep_range i u r tl d :
  loop_trace i u r tl → EvSleep d ∈ tl → (0 <= d)%Q ∧ (d < 1)%Q.
Proof.
  induction 1 as [| i u v' sz d' r tl Hi Hv Hs Hp Hd Hloop IH | |]; intros Hin.
  - by apply not_elem_of_nil in Hin.
  - rewrite !elem_of_cons in Hin.
    destruct Hin as [Heq | [Heq | [Heq | [Heq | Hin]]]]; try discriminate; auto.
    inversion Heq; subst. destruct Hd as [raw ->]. apply random_of_word_range.
  - rewrite !elem_of_cons, elem_of_nil in Hin.
    destruct Hin as [Heq | [Heq | []]]; discriminate.
  - rewrite !elem_of_cons, elem_of_nil in Hin.
    destruct Hin as [Heq | [Heq | [Heq | []]]]; discriminate.
Qed.

(** When the loop returns after at least one turn, its last two events
    are the last call of [producer.produce] and the sleep after it. *)
Lemma loop_trace_last_sleep i u tl :
  loop_trace i u (Return tt) tl → i < 10000 →
  ∃ tl' t h k v d, tl = tl' ++ [EvProduce t h k v None; EvSleep d].
Proof.
  intros Hloop. remember (Return tt) as r eqn:Hr.
  induction Hloop as [| i u v' sz d' r tl Hi Hv Hs Hp Hd Hloop IH | |]; intros Hlt;
    try discriminate.
  - lia.
  - destruct (decide (i + 1 < 10000)) as [Hnext | Hlast].
    + destruct (IH Hr Hnext) as (tl' & t & h & k & v & d & ->).
      by eexists (_ :: _ :: _ :: _ :: tl'), t, h, k, v, d.
    + inversion Hloop; subst; try lia.
      by eexists [_; _], _, _, _, _, _.
Qed.
End TraceFacts.

(** ** The trace of the whole script *)

Section MainFacts.
Context {env : Environment}.

(** The trace of the script: nothing when no producer could be had, and
    otherwise the acquisition, the events of the loop and the release. *)
Lemma main_trace w :
  (st_trace (main (init w)).2 = [] ∧ ∃ e, (main (init w)).1 = Raise (LibraryError e)) ∨
  (∃ tl, loop_trace 0 0 (main (init w)).1 tl ∧
         st_trace (main (init w)).2 =
           EvAcquire :: tl ++ [EvRelease (exc_info (main (init w)).1)]).
Proof.
  destruct (lib_get_producer w) as [[e |] w'] eqn:Hget.
  - left. rewrite (main_not_acquired w e w' Hget). split; [reflexivity | by exists e].
  - right. by apply (main_acquired w w').
Qed.

Lemma main_split_in_loop w pre ev post :
  st_trace (main (init w)).2 = pre ++ ev :: post → in_loop ev = true →
  ∃ tl pre0 post0,
    loop_trace 0 0 (main (init w)).1 tl ∧ tl = pre0 ++ ev :: post0 ∧
    pre = EvAcquire :: pre0 ∧ post = post0 ++ [EvRelease (exc_info (main (init w)).1)].
Proof.
  intros Htr Hev. destruct (main_trace w) as [[Hnil _] | (tl & Hloop & Hmain)].
  { rewrite Hnil in Htr. by destruct pre. }
  rewrite Hmain in Htr. exists tl.
  destruct pre as [|p pre]; simpl in Htr; inversion Htr as [[Hp Hrest]].
  { subst ev. discriminate Hev. }
  destruct (decide (post = [])) as [-> | Hne].
  { apply (app_inj_2 _ _ [_] [_]) in Hrest as [_ Hlast]; [|done].
    inversion Hlast; subst ev. discriminate Hev. }
  destruct (exists_last Hne) as (post0 & z & ->).
  change (tl ++ [EvRelease (exc_info (main (init w)).1)] = pre ++ (ev :: post0) ++ [z]) in Hrest.
  rewrite app_assoc in Hrest.
  apply (app_inj_2 _ _ [_] [_]) in Hrest as [Htl Hlast]; [|done].
  inversion Hlast; subst z. by exists pre, post0.
Qed.

Lemma main_elem_in_loop w ev :
  ev ∈ st_trace (main (init w)).2 → in_loop ev = true →
  ∃ tl, loop_trace 0 0 (main (init w)).1 tl ∧ ev ∈ tl.
Proof.
  intros (pre & post & Htr)%list_elem_of_split Hev.
  destruct (main_split_in_loop w pre ev post Htr Hev) as (tl & pre0 & post0 & Hloop & -> & _).
  eexists. split; [exact Hloop|]. apply elem_of_app. right. by left.
Qed.

Lemma main_serialize_headers tl exc :
  serialize_headers (EvAcquire :: tl ++ [EvRelease exc]) = serialize_headers tl.
Proof. unfold serialize_headers. simpl. rewrite omap_app. simpl. by rewrite app_nil_r. Qed.

Lemma main_count p tl exc :
  p EvAcquire = false → p (EvRelease exc) = false →
  count p (EvAcquire :: tl ++ [EvRelease exc]) = count p tl.
Proof.
  intros Ha Hr. unfold count. simpl. rewrite Ha, List.filter_app. simpl. rewrite Hr.
  by rewrite app_nil_r.
Qed.

Lemma generated_printed w v :
  EvPrint v ∈ st_trace (main (init w)).2 → generated v.
Proof.
  intros Hin. destruct (main_elem_in_loop w _ Hin eq_refl) as (tl & Hloop & Htl).
  by eapply loop_trace_printed.
Qed.

(** In a reliable environment no call raises and the script returns. *)
Lemma reliable_main w :
  reliable →
  Forall (λ ev, failure ev = None) (st_trace (main (init w)).2).
Proof.
  intros Hrel. destruct (main_trace w) as [[-> _] | (tl & Hloop & ->)]; [done|].
  destruct (reliable_loop_trace _ _ _ _ Hrel Hloop) as [_ Hall].
  constructor; [done|]. apply Forall_app. split; [exact Hall | by repeat constructor].
Qed.

Lemma reliable_main_returns w :
  reliable → (lib_get_producer w).1 = None → (main (init w)).1 = Return tt.
Proof.
  intros Hrel Hget. destruct (lib_get_producer w) as [r w'] eqn:Hw. simpl in Hget. subst r.
  destruct (main_acquired w w' Hw) as (tl & Hloop & _).
  by destruct (reliable_loop_trace _ _ _ _ Hrel Hloop).
Qed.

(** A run that returns slept 10000 times, the last time after the last
    call of [producer.produce] and right before the release. *)
Lemma main_returned_sleeps w :
  (lib_get_producer w).1 = None → (main (init w)).1 = Return tt →
  Z.of_nat (count is_sleep (st_trace (main (init w)).2)) = 10000 ∧
  ∃ pre t h k v d,
    st_trace (main (init w)).2 =
      pre ++ [EvProduce t h k v None; EvSleep d; EvRelease None].
Proof.
  intros Hget Hret.
  destruct (lib_get_producer w) as [r w'] eqn:Hw. simpl in Hget. subst r.
  destruct (main_acquired w w' Hw) as (tl & Hloop & Htr).
  rewrite Hret in Hloop, Htr. rewrite Htr.
  destruct (loop_trace_returned _ _ _ Hloop) as (_ & _ & Hs); [lia|].
  rewrite main_count by done. rewrite Hs. split; [lia|].
  destruct (loop_trace_last_sleep _ _ _ Hloop) as (tl' & t & h & k & v & d & ->); [lia|].
  exists (EvAcquire :: tl'), t, h, k, v, d. simpl. by rewrite <- app_assoc.
Qed.
End MainFacts.

Lemma steady_reliable : @reliable Demo.steady.
Proof. split; [intros w k v h; by eexists | done]. Qed.

(** ** The properties claimed of the script *)

Section Claims.
Context {env : Environment}.



(** C7: in every generated event, [transaction_amount] is an integer of
    [[-2500, -1]], hence negative. *)
Theorem transaction_amount_of_generated_event w v :
  EvPrint v ∈ st_trace (main (init w)).2 →
  -2500 ≤ transaction_amount v ≤ -1 ∧ transaction_amount v < 0.
Proof.
  intros (account & amount & source & ts & _ & Hamt & _ & ->)%generated_printed.
  simpl. lia.
Qed.

(** C3: when no call of [topic.serialize] or [producer.produce] raises,
    the loop, once entered, returns after exactly 10000 turns: 10000
    events are generated and [producer.produce] is called 10000 times,
    whatever the environment. The loop is a total function, [10000 - i]
    being its measure. *)
Theorem loop_makes_10000_turns w :
  (lib_get_producer w).1 = None →
  Forall (λ ev, failure ev = None) (st_trace (main (init w)).2) →
  (main (init w)).1 = Return tt ∧
  Z.of_nat (count is_print (st_trace (main (init w)).2)) = 10000 ∧
  Z.of_nat (count is_produce (st_trace (main (init w)).2)) = 10000.
Proof.
  intros Hget Hall. destruct (main_trace w) as [[Hnil [e He]] | (tl & Hloop & Htr)].
  { destruct (lib_get_producer w) as [r w'] eqn:Hw. simpl in Hget. subst r.
    destruct (main_acquired w w' Hw) as (tl & _ & Htr). rewrite Hnil in Htr. done. }
  rewrite Htr in Hall |- *.
  apply Forall_cons_1 in Hall as [_ Hall]. apply Forall_app in Hall as [Hall _].
  pose proof (loop_trace_no_failure _ _ _ _ Hloop Hall) as Hret.
  rewrite Hret in Hloop |- *.
  destruct (loop_trace_returned _ _ _ Hloop) as (Hp & Hq & _); [lia|].
  rewrite !main_count by done. rewrite Hp, Hq. split; [done | split; lia].
Qed.

(** C4, as the script has it: the headers passed to [topic.serialize] for
    the [n]-th message are the union of the identifier of that message,
    under the key ["uuid"], and of the serializer's extra headers. The
    identifier is the result of a call of [uuid.uuid4] made for that
    message alone; the script checks nothing about it, so that two
    consecutive messages have different identifiers exactly when
    [uuid.uuid4] returned different identifiers at the two calls. *)
Theorem headers_of_each_message w :
  let sent := serialize_headers (st_trace (main (init w)).2) in
  (∀ n h, sent !! n = Some h →
          h = {[ "uuid" := Py.uuid_str (Py.uuid4_of_bytes (urandom16 n)) ]} ∪ extra_headers) ∧
  (∀ n h h', sent !! n = Some h → sent !! S n = Some h' →
             (h !! "uuid" ≠ h' !! "uuid" ↔
              Py.uuid4_of_bytes (urandom16 n) ≠ Py.uuid4_of_bytes (urandom16 (S n)))).
Proof.
  intros sent.
  assert (Hsent : ∀ n h, sent !! n = Some h → h = message_headers n).
  { intros n h Hn. subst sent.
    destruct (main_trace w) as [[Hnil _] | (tl & Hloop & Htr)].
    - by rewrite Hnil in Hn.
    - rewrite Htr, main_serialize_headers in Hn.
      by apply (loop_trace_headers _ _ _ _ _ _ Hloop) in Hn. }
  split.
  - intros n h Hn. rewrite (Hsent n h Hn).
    unfold message_headers, merge_headers. apply insert_union_singleton_l.
  - intros n h h' Hn Hn'. rewrite (Hsent n h Hn), (Hsent (S n) h' Hn').
    unfold message_headers, merge_headers. rewrite !lookup_insert_eq. split.
    + intros Hne Heq. apply Hne. by rewrite Heq.
    + intros Hne Hstr%(inj Some). apply Hne.
      apply uuid_str_inj in Hstr; [done | apply uuid4_of_bytes_below ..].
Qed.

(** C10: the ["uuid"] entry of the headers passed to [topic.serialize]
    for the [n]-th message is the identifier drawn for that message,
    whatever the serializer's extra headers hold under that name; the
    other entries are those of the extra headers. *)
Theorem uuid_header_overrides w n h :
  serialize_headers (st_trace (main (init w)).2) !! n = Some h →
  h !! "uuid" = Some (Py.uuid_str (Py.uuid4_of_bytes (urandom16 n))) ∧
  (∀ name, name ≠ "uuid" → h !! name = extra_headers !! name).
Proof.
  intros Hn. destruct (main_trace w) as [[Hnil _] | (tl & Hloop & Htr)].
  { by rewrite Hnil in Hn. }
  rewrite Htr, main_serialize_headers in Hn.
  apply (loop_trace_headers _ _ _ _ _ _ Hloop) in Hn. subst h.
  unfold message_headers, merge_headers. split.
  - apply lookup_insert_eq.
  - intros name Hne. by apply lookup_insert_ne.
Qed.

(** C5: a call of [topic.serialize] or [producer.produce] that raises is
    the last event of the loop: the producer is released with that very
    exception and the script ends by raising it; no event is generated
    and no call is made after it, and no call had raised before it. *)
Theorem failure_ends_the_loop w pre ev post e :
  st_trace (main (init w)).2 = pre ++ ev :: post → failure ev = Some e →
  (main (init w)).1 = Raise (LibraryError e) ∧
  post = [EvRelease (Some (LibraryError e))] ∧
  Forall (λ ev', failure ev' = None) pre.
Proof.
  intros Htr Hfail.
  assert (Hev : in_loop ev = true) by (by destruct ev).
  destruct (main_split_in_loop w pre ev post Htr Hev)
    as (tl & pre0 & post0 & Hloop & Htl & -> & ->).
  destruct (loop_trace_failure _ _ _ _ _ _ _ _ Hloop Htl Hfail) as (-> & Hr & Hpre).
  rewrite Hr. split; [reflexivity|]. split; [reflexivity|]. by constructor.
Qed.

(** C6: once [app.get_producer()] has returned, the producer is acquired
    once, before every event of the loop, and released once, after all of
    them, whether the loop returns or raises: [__exit__] receives the
    exception of the loop, if any. *)
Theorem producer_released_on_every_path w :
  (lib_get_producer w).1 = None →
  ∃ tl,
    st_trace (main (init w)).2 =
      EvAcquire :: tl ++ [EvRelease (exc_info (main (init w)).1)] ∧
    Forall (λ ev, in_loop ev = true) tl ∧
    (∀ e, (main (init w)).1 = Raise e →
          last (st_trace (main (init w)).2) = Some (EvRelease (Some e))) ∧
    ((main (init w)).1 = Return tt →
          last (st_trace (main (init w)).2) = Some (EvRelease None)).
Proof.
  intros Hget. destruct (lib_get_producer w) as [r w'] eqn:Hw. simpl in Hget. subst r.
  destruct (main_acquired w w' Hw) as (tl & Hloop & Htr).
  exists tl. split; [exact Htr|]. split; [by eapply loop_trace_in_loop|].
  split.
  - intros e He. rewrite Htr, He. simpl.
    change (EvAcquire :: tl ++ [EvRelease (Some e)])
      with ((EvAcquire :: tl) ++ [EvRelease (Some e)]). apply last_snoc.
  - intros He. rewrite Htr, He. simpl.
    change (EvAcquire :: tl ++ [EvRelease None])
      with ((EvAcquire :: tl) ++ [EvRelease None]). apply last_snoc.
Qed.

(** C9: the key passed to [topic.serialize] is the [account_id] of the
    event it is called on, and every call of [producer.produce] comes
    right after the call of [topic.serialize] on an event and takes the
    key, the headers and the value of the envelope that call returned. *)
Theorem produce_key_is_serialized_account_id w :
  (∀ k v h r, EvSerialize k v h r ∈ st_trace (main (init w)).2 → k = account_id v) ∧
  (∀ pre t hh kk vv res post,
     st_trace (main (init w)).2 = pre ++ EvProduce t hh kk vv res :: post →
     ∃ pre' v h sz,
       pre = pre' ++ [EvPrint v; EvSerialize (account_id v) v h (inr sz)] ∧
       kk = ser_key sz ∧ hh = ser_headers sz ∧ vv = ser_value sz ∧ t = topic_name).
Proof.
  split.
  - intros k v h r Hin.
    destruct (main_elem_in_loop w _ Hin eq_refl) as (tl & Hloop & Htl).
    by destruct (loop_trace_serialize _ _ _ _ _ _ _ _ Hloop Htl).
  - intros pre t hh kk vv res post Htr.
    destruct (main_split_in_loop w pre _ post Htr eq_refl)
      as (tl & pre0 & post0 & Hloop & Htl & -> & ->).
    destruct (loop_trace_produce _ _ _ _ _ _ _ _ _ _ _ Hloop Htl)
      as (pre' & v & h & sz & -> & _ & -> & -> & -> & ->).
    by exists (EvAcquire :: pre'), v, h, sz.
Qed.

(** C8, as the script has it: the loop sleeps for a duration of [[0, 1)]
    at the end of every turn, that is right after each call of
    [producer.produce] that returned and at no other point; the last turn
    is no exception, its sleep comes after the last call of
    [producer.produce] and before the loop exits. *)
Theorem sleep_ends_every_turn w :
  (∀ d, EvSleep d ∈ st_trace (main (init w)).2 → (0 <= d)%Q ∧ (d < 1)%Q) ∧
  (∀ pre d post, st_trace (main (init w)).2 = pre ++ EvSleep d :: post →
     ∃ pre' t h k v, pre = pre' ++ [EvProduce t h k v None]) ∧
  (∀ pre t h k v post,
     st_trace (main (init w)).2 = pre ++ EvProduce t h k v None :: post →
     ∃ d post', post = EvSleep d :: post') ∧
  ((lib_get_producer w).1 = None → (main (init w)).1 = Return tt →
     Z.of_nat (count is_sleep (st_trace (main (init w)).2)) = 10000 ∧
     ∃ pre t h k v d,
       st_trace (main (init w)).2 =
         pre ++ [EvProduce t h k v None; EvSleep d; EvRelease None]).
Proof.
  split; [|split; [|split]].
  - intros d Hin.
    destruct (main_elem_in_loop w _ Hin eq_refl) as (tl & Hloop & Htl).
    by eapply loop_trace_sleep_range.
  - intros pre d post Htr.
    destruct (main_split_in_loop w pre _ post Htr eq_refl)
      as (tl & pre0 & post0 & Hloop & Htl & -> & ->).
    destruct (loop_trace_sleep_before _ _ _ _ _ _ _ Hloop Htl) as (pre' & t & h & k & v & ->).
    by exists (EvAcquire :: pre'), t, h, k, v.
  - intros pre t h k v post Htr.
    destruct (main_split_in_loop w pre _ post Htr eq_refl)
      as (tl & pre0 & post0 & Hloop & Htl & -> & ->).
    destruct (loop_trace_sleep_after _ _ _ _ _ _ _ _ _ _ Hloop Htl) as (d & post' & ->).
    by eexists d, _.
  - apply main_returned_sleeps.
Qed.
End Claims.

(** ** The properties at work on the two sample runs *)

Lemma flaky_first_print :
  EvPrint Demo.first_value ∈ st_trace Demo.flaky_run.2.
Proof. apply (list_elem_of_lookup_2 _ 1). vm_compute. reflexivity. Qed.



Lemma transaction_amount_of_generated_event_witness :
  EvPrint Demo.first_value ∈ st_trace Demo.flaky_run.2 ∧
  -2500 ≤ transaction_amount Demo.first_value ≤ -1 ∧
  transaction_amount Demo.first_value < 0.
Proof.
  split; [exact flaky_first_print|].
  apply (@transaction_amount_of_generated_event Demo.flaky 0%nat Demo.first_value).
  exact flaky_first_print.
Defined.

Lemma loop_makes_10000_turns_witness :
  (@lib_get_producer Demo.steady 0%nat).1 = None ∧
  Forall (λ ev, failure ev = None) (st_trace Demo.steady_run.2) ∧
  Demo.steady_run.1 = Return tt ∧
  Z.of_nat (count is_print (st_trace Demo.steady_run.2)) = 10000 ∧
  Z.of_nat (count is_produce (st_trace Demo.steady_run.2)) = 10000.
Proof.
  split; [reflexivity|]. split; [exact (@reliable_main Demo.steady 0%nat steady_reliable)|].
  apply (@loop_makes_10000_turns Demo.steady 0%nat).
  - reflexivity.
  - exact (@reliable_main Demo.steady 0%nat steady_reliable).
Defined.

(** The two messages of the flaky run, as [topic.serialize] got them. *)
Lemma flaky_messages :
  serialize_headers (st_trace Demo.flaky_run.2) !! 0%nat
    = Some (@message_headers Demo.flaky 0) ∧
  serialize_headers (st_trace Demo.flaky_run.2) !! 1%nat
    = Some (@message_headers Demo.flaky 1).
Proof. split; vm_compute; reflexivity. Qed.

Lemma headers_of_each_message_witness :
  let sent := serialize_headers (st_trace Demo.flaky_run.2) in
  (sent !! 0%nat = Some (@message_headers Demo.flaky 0) ∧
   sent !! 1%nat = Some (@message_headers Demo.flaky 1)) ∧
  @message_headers Demo.flaky 0
    = {[ "uuid" := "00000000-0000-4000-8000-000000000000" ]} ∪ Demo.quix_headers ∧
  @message_headers Demo.flaky 1
    = {[ "uuid" := "00000000-0000-4000-8000-000000000001" ]} ∪ Demo.quix_headers ∧
  @message_headers Demo.flaky 0 !! "uuid" ≠ @message_headers Demo.flaky 1 !! "uuid".
Proof.
  intros sent. destruct flaky_messages as [H0 H1].
  destruct (@headers_of_each_message Demo.flaky 0%nat) as [Hunion Hdiffer].
  split; [by split|].
  split; [exact (Hunion 0%nat _ H0)|].
  split; [exact (Hunion 1%nat _ H1)|].
  apply (Hdiffer 0%nat _ _ H0 H1). exact (uuid4_of_counter_fresh 0).
Defined.

(** With an entropy source that repeats itself, the first two messages
    of a run carry the same identifier. *)
Lemma repeated_entropy_repeats_uuid :
  ¬ (∀ n h h',
       serialize_headers (st_trace Demo.colliding_run.2) !! n = Some h →
       serialize_headers (st_trace Demo.colliding_run.2) !! S n = Some h' →
       h !! "uuid" ≠ h' !! "uuid").
Proof.
  intros Hdiffer.
  apply (Hdiffer 0%nat (@message_headers Demo.colliding 0)
                 (@message_headers Demo.colliding 1)).
  - vm_compute. reflexivity.
  - vm_compute. reflexivity.
  - vm_compute. reflexivity.
Qed.

Lemma uuid_header_overrides_witness :
  Demo.quix_headers !! "uuid" = Some "serializer-default" ∧
  serialize_headers (st_trace Demo.flaky_run.2) !! 0%nat
    = Some (@message_headers Demo.flaky 0) ∧
  @message_headers Demo.flaky 0 !! "uuid"
    = Some "00000000-0000-4000-8000-000000000000" ∧
  (∀ name, name ≠ "uuid" →
           @message_headers Demo.flaky 0 !! name = Demo.quix_headers !! name).
Proof.
  split; [vm_compute; reflexivity|].
  assert (Hsent : serialize_headers (st_trace Demo.flaky_run.2) !! 0%nat
                  = Some (@message_headers Demo.flaky 0)) by (vm_compute; reflexivity).
  split; [exact Hsent|].
  exact (@uuid_header_overrides Demo.flaky 0%nat 0%nat _ Hsent).
Defined.

Lemma failure_ends_the_loop_witness :
  let tr := st_trace Demo.flaky_run.2 in
  (tr = take 7 tr ++ Demo.failed_produce :: drop 8 tr ∧
   failure Demo.failed_produce = Some ("BufferError" : @lib_error Demo.flaky)) ∧
  Demo.flaky_run.1 = Raise Demo.buffer_error ∧
  drop 8 tr = [EvRelease (Some Demo.buffer_error)] ∧
  Forall (λ ev, failure ev = None) (take 7 tr).
Proof.
  intros tr.
  assert (Hlook : tr !! 7%nat = Some Demo.failed_produce) by (vm_compute; reflexivity).
  pose proof (eq_sym (take_drop_middle tr 7 _ Hlook)) as Htr.
  split; [split; [exact Htr | reflexivity]|].
  exact (@failure_ends_the_loop Demo.flaky 0%nat _ _ _ _ Htr eq_refl).
Defined.

Lemma producer_released_on_every_path_witness :
  (@lib_get_producer Demo.flaky 0%nat).1 = None ∧
  ∃ tl,
    st_trace Demo.flaky_run.2 =
      EvAcquire :: tl ++ [EvRelease (exc_info Demo.flaky_run.1)] ∧
    Forall (λ ev, in_loop ev = true) tl ∧
    (∀ e, Demo.flaky_run.1 = Raise e →
          last (st_trace Demo.flaky_run.2) = Some (EvRelease (Some e))) ∧
    (Demo.flaky_run.1 = Return tt →
          last (st_trace Demo.flaky_run.2) = Some (EvRelease None)).
Proof.
  split; [reflexivity|].
  exact (@producer_released_on_every_path Demo.flaky 0%nat eq_refl).
Defined.

(** The first turn of the flaky run: the key of the call of
    [topic.serialize] is the [account_id] of the first event, and the call
    of [producer.produce] right after it takes the envelope it returned. *)
Lemma produce_key_is_serialized_account_id_witness :
  let tr := st_trace Demo.flaky_run.2 in
  (tr !! 2%nat = Some Demo.first_serialize ∧
   tr = take 3 tr ++ Demo.first_produce :: drop 4 tr) ∧
  ("A0000000003" = account_id Demo.first_value) ∧
  ∃ pre' v h sz,
    take 3 tr = pre' ++ [EvPrint v; EvSerialize (account_id v) v h (inr sz)] ∧
    ("A0000000003" : @wire Demo.flaky) = ser_key sz ∧
    (@message_headers Demo.flaky 0 : @wire_headers Demo.flaky) = ser_headers sz ∧
    (Demo.render Demo.first_value : @wire Demo.flaky) = ser_value sz ∧
    "demo-qts__purchase_events" = @topic_name Demo.flaky.
Proof.
  intros tr.
  assert (Hser : tr !! 2%nat = Some Demo.first_serialize) by (vm_compute; reflexivity).
  assert (Hprod : tr !! 3%nat = Some Demo.first_produce) by (vm_compute; reflexivity).
  pose proof (eq_sym (take_drop_middle tr 3 _ Hprod)) as Htr.
  destruct (@produce_key_is_serialized_account_id Demo.flaky 0%nat) as [Hkey Hafter].
  split; [by split|]. split.
  - exact (Hkey _ _ _ _ (list_elem_of_lookup_2 _ _ _ Hser)).
  - exact (Hafter _ _ _ _ _ _ _ Htr).
Defined.

(** The steady run ends with a sleep that no call of [producer.produce]
    follows: the sleep of the last turn. *)
Lemma sleep_after_last_turn :
  ¬ sleeps_only_between_turns (st_trace Demo.steady_run.2).
Proof.
  intros Hbetween.
  destruct (@main_returned_sleeps Demo.steady 0%nat eq_refl
              (@reliable_main_returns Demo.steady 0%nat steady_reliable eq_refl))
    as (_ & pre & t & h & k & v & d & Htr).
  destruct (Hbetween (pre ++ [EvProduce t h k v None]) d [EvRelease None])
    as (ev & Hin & Hprod).
  { rewrite <- app_assoc. exact Htr. }
  apply list_elem_of_singleton in Hin. subst ev. discriminate Hprod.
Qed.

(** * Further properties of the script *)

Section StringFacts.




End StringFacts.

Section MoreLoopFacts.
Context {env : Environment}.

Lemma loop_trace_counts i u r tl :
  loop_trace i u r tl →
  count is_serialize tl = count is_print tl ∧
  Z.of_nat (count is_print tl) ≤ Z.max 0 (10000 - i) ∧
  (count is_produce tl ≤ count is_print tl)%nat ∧
  count is_sleep tl = count is_published tl ∧
  (count is_published tl ≤ count is_produce tl)%nat.
Proof.
  induction 1 as [| i u v' sz d r tl Hi Hv Hs Hp Hd Hloop IH | |];
    unfold count in *; simpl.
  - repeat split; lia.
  - destruct IH as (IH1 & IH2 & IH3 & IH4 & IH5). repeat split; lia.
  - repeat split; lia.
  - repeat split; lia.
Qed.

(** When the loop raises, every event but the last one generated went
    through its whole turn. *)
Lemma loop_trace_raised_counts i u x tl :
  loop_trace i u (Raise x) tl →
  count is_print tl = S (count is_sleep tl).
Proof.
  intros Hloop. remember (Raise x) as r eqn:Hr.
  induction Hloop as [| i u v' sz d r tl Hi Hv Hs Hp Hd Hloop IH | |];
    unfold count in *; simpl; try discriminate.
  - by rewrite IH.
  - done.
  - done.
Qed.

Lemma loop_trace_returned_no_failure i u tl :
  loop_trace i u (Return tt) tl → Forall (λ ev, failure ev = None) tl.
Proof.
  intros Hloop. remember (Return tt) as r eqn:Hr.
  induction Hloop as [| i u v' sz d r tl Hi Hv Hs Hp Hd Hloop IH | |];
    try discriminate.
  - constructor.
  - repeat constructor. by apply IH.
Qed.

Lemma loop_trace_raised_library i u x tl :
  loop_trace i u (Raise x) tl → ∃ e, x = LibraryError e.
Proof.
  intros Hloop. remember (Raise x) as r eqn:Hr.
  induction Hloop as [| i u v' sz d r tl Hi Hv Hs Hp Hd Hloop IH | |];
    try discriminate; [by apply IH | |]; inversion Hr; by eexists.
Qed.

Ltac invert_event :=
  match goal with
  | H : @eq Event _ _ |- _ => inversion H; subst; clear H
  end.

Ltac split_trace H :=
  let pre' := fresh "pre" in
  apply cons_split in H as [(-> & ? & ?) | (pre' & -> & H)];
  [ try discriminate | try (by destruct pre')].

(** A value is handed to [topic.serialize] right after it was printed. *)
Lemma loop_trace_serialize_after_print i u r tl pre k v h res post :
  loop_trace i u r tl → tl = pre ++ EvSerialize k v h res :: post →
  ∃ pre', pre = pre' ++ [EvPrint v].
Proof.
  intros Hloop. revert pre.
  induction Hloop as [| i u v' sz d r tl Hi Hv Hs Hp Hd Hloop IH
                      | i u v' e' Hi Hv Hs | i u v' sz e' Hi Hv Hs Hp];
    intros pre Heq.
  - by destruct pre.
  - split_trace Heq. split_trace Heq.
    { invert_event. by exists []. }
    split_trace Heq. split_trace Heq.
    destruct (IH _ Heq) as (pre' & ->). by eexists (_ :: _ :: _ :: _ :: pre').
  - split_trace Heq. split_trace Heq. invert_event. by exists [].
  - split_trace Heq. split_trace Heq.
    { invert_event. by exists []. }
    split_trace Heq.
Qed.

Lemma loop_trace_print_then_serialize i u r tl pre v post :
  loop_trace i u r tl → tl = pre ++ EvPrint v :: post →
  ∃ h res post', post = EvSerialize (account_id v) v h res :: post'.
Proof.
  intros Hloop. revert pre.
  induction Hloop as [| i u v' sz d r tl Hi Hv Hs Hp Hd Hloop IH
                      | i u v' e' Hi Hv Hs | i u v' sz e' Hi Hv Hs Hp];
    intros pre Heq.
  - by destruct pre.
  - split_trace Heq.
    { invert_event. by eexists _, _, _. }
    split_trace Heq. split_trace Heq. split_trace Heq. eauto.
  - split_trace Heq.
    { invert_event. by eexists _, _, _. }
    split_trace Heq.
  - split_trace Heq.
    { invert_event. by eexists _, _, _. }
    split_trace Heq. split_trace Heq.
Qed.

End MoreLoopFacts.

Section DrawFacts.
Context {env : Environment}.

Lemma choice_retailers_draw s :
  ∃ source,
    retailers !! Z.to_nat (Py.randbelow (Z.of_nat (length retailers)) (mt_word (st_rng s)))
      = Some source ∧
    choice retailers s = (Return source, advance_rng s).
Proof.
  unfold choice, retailers at 3. rewrite bind_run. unfold next_word.
  fold retailers.
  set (k := Z.to_nat _).
  assert (Hk : (k < length retailers)%nat).
  { subst k. pose proof (randbelow_range (Z.of_nat (length retailers)) (mt_word (st_rng s))) as H.
    simpl in H. simpl. lia. }
  destruct (lookup_lt_is_Some_2 retailers k Hk) as [source Hs].
  exists source. split; [exact Hs|]. fold retailers. by rewrite Hs.
Qed.

(** One turn by its draws: the event it prints, and the counters after it
    when it returns. *)
Lemma iteration_draws s :
  ∃ v ser rest,
    drawn (st_rng s) (st_clock s) v ∧ is_serialize ser = true ∧
    st_trace (iteration s).2 = st_trace s ++ EvPrint v :: ser :: rest ∧
    match (iteration s).1 with
    | Return _ =>
        (∃ prod, rest = [prod] ∧ is_produce prod = true) ∧
        st_rng (iteration s).2 = (3 + st_rng s)%nat ∧
        st_clock (iteration s).2 = S (st_clock s)
    | Raise _ =>
        rest = [] ∨ ∃ prod, rest = [prod] ∧ is_produce prod = true
    end.
Proof.
  destruct (iteration s) as [r s'] eqn:Hrun.
  unfold iteration in Hrun.
  rewrite bind_run, randint_run in Hrun by lia.
  rewrite bind_run, randint_run in Hrun by lia.
  rewrite bind_run in Hrun.
  destruct (choice_retailers_draw (advance_rng (advance_rng s))) as (source & Hsrc & Hch).
  rewrite Hch in Hrun. clear Hch.
  rewrite bind_run in Hrun. unfold time_ns in Hrun.
  rewrite bind_run in Hrun. unfold print in Hrun.
  rewrite bind_run in Hrun. unfold uuid4 in Hrun.
  rewrite bind_run in Hrun. unfold serialize, produce in Hrun. simpl in Hrun.
  eexists (make_value _ _ source _).
  destruct (lib_serialize _ _ _ _) as [[e | sz] w1]; simpl in Hrun.
  - inversion Hrun; subst r s'; clear Hrun. eexists (EvSerialize _ _ _ _), [].
    split; [exists source; split; [exact Hsrc | reflexivity]|].
    split; [reflexivity|]. simpl. split; [by rewrite <- app_assoc | by left].
  - destruct (lib_produce _ _ _ _ _) as [[e |] w2]; inversion Hrun; subst r s'; clear Hrun.
    + eexists (EvSerialize _ _ _ _), [EvProduce _ _ _ _ _].
      split; [exists source; split; [exact Hsrc | reflexivity]|].
      split; [reflexivity|]. simpl. split; [by rewrite <- !app_assoc |].
      right. by eexists.
    + eexists (EvSerialize _ _ _ _), [EvProduce _ _ _ _ _].
      split; [exists source; split; [exact Hsrc | reflexivity]|].
      split; [reflexivity|]. simpl. split; [by rewrite <- !app_assoc |].
      split; [by eexists | done].
Qed.

(** The trace of the loop by its draws. *)
Lemma while_loop_draws i s :
  ∃ tl, st_trace (while_loop i s).2 = st_trace s ++ tl ∧
        loop_draws (st_rng s) (st_clock s) tl.
Proof.
  funelim (while_loop i s).
  - exists []. simpl. rewrite app_nil_r. split; [done | constructor].
  - destruct (iteration_draws s) as (v & ser & rest & Hv & Hser & Htr & Hout).
    rewrite Heq in Htr, Hout. simpl in Htr, Hout.
    eexists. split; [exact Htr|].
    destruct Hout as [-> | (prod & -> & Hprod)]; by constructor.
  - destruct H as (tl & Htl & Hdraws). simpl in Htl, Hdraws.
    destruct (iteration_draws s) as (v & ser & rest & Hv & Hser & Htr & Hout).
    rewrite Heq in Htr, Hout. simpl in Htr, Hout.
    destruct Hout as ((prod & -> & Hprod) & Hrng & Hclock).
    eexists. split.
    + rewrite Htl, Htr, <- !app_assoc. simpl. reflexivity.
    + rewrite Hrng, Hclock in Hdraws.
      replace (Py.random_of_word (mt_word (st_rng s1)))
        with (Py.random_of_word (mt_word (3 + st_rng s))).
      * by constructor.
      * by rewrite Hrng.
  - discriminate.
Qed.

End DrawFacts.

Section MoreMainFacts.
Context {env : Environment}.

Lemma loop_draws_printed r c tl n v :
  loop_draws r c tl → printed tl !! n = Some v → drawn (r + 4 * n) (c + n) v.
Proof.
  intros Hdraws. revert n.
  induction Hdraws as [r c | r c v' ser prod tl Hv Hser Hprod Hdraws IH
                       | r c v' ser Hv Hser | r c v' ser prod Hv Hser Hprod];
    intros n Hn.
  - done.
  - destruct ser; try discriminate Hser. destruct prod; try discriminate Hprod.
    destruct n as [|n]; simpl in Hn.
    + inversion Hn; subst. by rewrite !Nat.add_0_r.
    + apply IH in Hn. by replace (r + 4 * S n)%nat with (4 + r + 4 * n)%nat by lia;
        replace (c + S n)%nat with (S c + n)%nat by lia.
  - destruct ser; try discriminate Hser.
    destruct n as [|n]; simpl in Hn; [|done].
    inversion Hn; subst. by rewrite !Nat.add_0_r.
  - destruct ser; try discriminate Hser. destruct prod; try discriminate Hprod.
    destruct n as [|n]; simpl in Hn; [|done].
    inversion Hn; subst. by rewrite !Nat.add_0_r.
Qed.

Lemma loop_draws_slept r c tl n d :
  loop_draws r c tl → slept tl !! n = Some d →
  d = Py.random_of_word (mt_word (r + 4 * n + 3)).
Proof.
  intros Hdraws. revert n.
  induction Hdraws as [r c | r c v' ser prod tl Hv Hser Hprod Hdraws IH
                       | r c v' ser Hv Hser | r c v' ser prod Hv Hser Hprod];
    intros n Hn.
  - done.
  - destruct ser; try discriminate Hser. destruct prod; try discriminate Hprod.
    destruct n as [|n]; simpl in Hn.
    + inversion Hn; subst. f_equal. f_equal. lia.
    + apply IH in Hn. rewrite Hn. f_equal. f_equal. lia.
  - destruct ser; try discriminate Hser. by destruct n.
  - destruct ser; try discriminate Hser. destruct prod; try discriminate Hprod.
    by destruct n.
Qed.

(** The trace of the script by its draws. *)
Lemma main_draws w :
  st_trace (main (init w)).2 = [] ∨
  ∃ tl exc, loop_draws 0 0 tl ∧
            st_trace (main (init w)).2 = EvAcquire :: tl ++ [EvRelease exc].
Proof.
  unfold main. rewrite bind_run. unfold get_producer. simpl.
  destruct (lib_get_producer w) as [[e |] w']; [by left|]. right.
  unfold with_producer.
  set (s0 := emit EvAcquire _).
  destruct (while_loop_draws 0 s0) as (tl & Htl & Hdraws).
  exists tl. destruct (while_loop 0 s0) as [[[] | e] s1]; simpl in *.
  - eexists. split; [exact Hdraws|]. rewrite Htl. reflexivity.
  - eexists. split; [exact Hdraws|]. rewrite Htl. reflexivity.
Qed.

Lemma main_printed tl exc :
  printed (EvAcquire :: tl ++ [EvRelease exc]) = printed tl.
Proof. unfold printed. simpl. rewrite omap_app. simpl. by rewrite app_nil_r. Qed.

Lemma main_slept tl exc :
  slept (EvAcquire :: tl ++ [EvRelease exc]) = slept tl.
Proof. unfold slept. simpl. rewrite omap_app. simpl. by rewrite app_nil_r. Qed.

Lemma generated_account_id_inj account account' :
  0 ≤ account ≤ 10 → 0 ≤ account' ≤ 10 →
  format_account_id account = format_account_id account' → account = account'.
Proof.
  intros Ha Ha' Heq.
  destruct (format_account_id_small account Ha) as (digits & Hid & _ & _ & _ & Hint).
  destruct (format_account_id_small account' Ha') as (digits' & Hid' & _ & _ & _ & Hint').
  rewrite Hid, Hid' in Heq. inversion Heq; subst. congruence.
Qed.

End MoreMainFacts.

(** ** Further properties *)

Section Extras.
Context {env : Environment}.

(** X1: in every generated event, [transaction_source] is one of the six
    names of [retailers]. *)
Theorem transaction_source_of_generated_event w v :
  EvPrint v ∈ st_trace (main (init w)).2 →
  transaction_source v ∈ retailers.
Proof.
  intros (account & amount & source & ts & _ & _ & Hsrc & ->)%generated_printed.
  exact Hsrc.
Qed.

(** X2: the key determines the class: two generated events with the same
    [account_id] have the same [account_class]. *)
Theorem same_account_id_same_class w v v' :
  EvPrint v ∈ st_trace (main (init w)).2 →
  EvPrint v' ∈ st_trace (main (init w)).2 →
  account_id v = account_id v' → account_class v = account_class v'.
Proof.
  intros (a & amount & source & ts & Ha & _ & _ & ->)%generated_printed.
  intros (a' & amount' & source' & ts' & Ha' & _ & _ & ->)%generated_printed.
  unfold make_value. cbn [account_id account_class]. intros Hid.
  by rewrite (generated_account_id_inj a a' Ha Ha' Hid).
Qed.

(** X3: the script returns exactly when [app.get_producer()] returned and
    no call of [topic.serialize] or [producer.produce] raised. *)
Theorem returns_iff_no_failure w :
  (main (init w)).1 = Return tt ↔
  (lib_get_producer w).1 = None ∧
  Forall (λ ev, failure ev = None) (st_trace (main (init w)).2).
Proof.
  split.
  - intros Hret. destruct (lib_get_producer w) as [[e |] w'] eqn:Hw.
    { rewrite (main_not_acquired w e w' Hw) in Hret. discriminate Hret. }
    split; [reflexivity|].
    destruct (main_acquired w w' Hw) as (tl & Hloop & ->).
    rewrite Hret in Hloop. constructor; [done|]. apply Forall_app. split.
    + by eapply loop_trace_returned_no_failure.
    + by repeat constructor.
  - intros [Hget Hall]. destruct (lib_get_producer w) as [r w'] eqn:Hw.
    simpl in Hget. subst r.
    destruct (main_acquired w w' Hw) as (tl & Hloop & Htr). rewrite Htr in Hall.
    apply Forall_cons_1 in Hall as [_ Hall]. apply Forall_app in Hall as [Hall _].
    by eapply loop_trace_no_failure.
Qed.

(** X4: the only exceptions that end the script are those of the
    streaming library: the calls of [randint] and [choice] never raise
    [ValueError] or [IndexError]. *)
Theorem raises_only_library_errors w x :
  (main (init w)).1 = Raise x → ∃ e, x = LibraryError e.
Proof.
  intros Hraise. destruct (lib_get_producer w) as [[e |] w'] eqn:Hw.
  - rewrite (main_not_acquired w e w' Hw) in Hraise. inversion Hraise. by exists e.
  - destruct (main_acquired w w' Hw) as (tl & Hloop & _). rewrite Hraise in Hloop.
    by eapply loop_trace_raised_library.
Qed.


(** X6: in every run, whatever raises, each generated event is passed to
    [topic.serialize] once, at most 10000 events are generated,
    [producer.produce] is called at most once per event, and the loop
    sleeps once per call of [producer.produce] that returned. *)
Theorem calls_per_event w :
  let tr := st_trace (main (init w)).2 in
  count is_serialize tr = count is_print tr ∧
  Z.of_nat (count is_print tr) ≤ 10000 ∧
  (count is_produce tr ≤ count is_print tr)%nat ∧
  count is_sleep tr = count is_published tr ∧
  (count is_published tr ≤ count is_produce tr)%nat.
Proof.
  intros tr. subst tr. destruct (main_trace w) as [[-> _] | (tl & Hloop & ->)].
  { unfold count. simpl. repeat split; lia. }
  rewrite !main_count by done.
  destruct (loop_trace_counts _ _ _ _ Hloop) as (H1 & H2 & H3 & H4 & H5).
  repeat split; try done; lia.
Qed.

(** X7: when a call raises inside the loop, only the event in flight is
    lost: every event generated before it was published and followed by
    its sleep. *)
Theorem raised_run_lost_one_event w x :
  (lib_get_producer w).1 = None → (main (init w)).1 = Raise x →
  let tr := st_trace (main (init w)).2 in
  count is_print tr = S (count is_published tr) ∧
  count is_sleep tr = count is_published tr.
Proof.
  intros Hget Hraise tr. subst tr.
  destruct (lib_get_producer w) as [r w'] eqn:Hw. simpl in Hget. subst r.
  destruct (main_acquired w w' Hw) as (tl & Hloop & ->).
  rewrite !main_count by done. rewrite Hraise in Hloop.
  destruct (loop_trace_counts _ _ _ _ Hloop) as (_ & _ & _ & H4 & _).
  rewrite <- H4. split; [|done]. by eapply loop_trace_raised_counts.
Qed.

(** X8: a value is passed to [topic.serialize] right after it was printed,
    and every printed value is: the trace pairs each print with the call
    of [topic.serialize] on the same value, under the key [account_id]. *)
Theorem print_then_serialize w :
  (∀ pre k v h res post,
     st_trace (main (init w)).2 = pre ++ EvSerialize k v h res :: post →
     ∃ pre', pre = pre' ++ [EvPrint v]) ∧
  (∀ pre v post,
     st_trace (main (init w)).2 = pre ++ EvPrint v :: post →
     ∃ h res post', post = EvSerialize (account_id v) v h res :: post').
Proof.
  split.
  - intros pre k v h res post Htr.
    destruct (main_split_in_loop w pre _ post Htr eq_refl)
      as (tl & pre0 & post0 & Hloop & Htl & -> & ->).
    destruct (loop_trace_serialize_after_print _ _ _ _ _ _ _ _ _ _ Hloop Htl) as (pre' & ->).
    by exists (EvAcquire :: pre').
  - intros pre v post Htr.
    destruct (main_split_in_loop w pre _ post Htr eq_refl)
      as (tl & pre0 & post0 & Hloop & Htl & -> & ->).
    destruct (loop_trace_print_then_serialize _ _ _ _ _ _ _ Hloop Htl)
      as (h & res & post' & ->).
    by eexists h, res, _.
Qed.

(** X9: the identifiers of two messages of a run are equal exactly when
    [uuid.uuid4] returned the same identifier for both. *)
Theorem uuid_headers_equal_iff w n m h h' :
  serialize_headers (st_trace (main (init w)).2) !! n = Some h →
  serialize_headers (st_trace (main (init w)).2) !! m = Some h' →
  (h !! "uuid" = h' !! "uuid" ↔
   Py.uuid4_of_bytes (urandom16 n) = Py.uuid4_of_bytes (urandom16 m)).
Proof.
  intros Hn Hm. destruct (main_trace w) as [[Hnil _] | (tl & Hloop & Htr)].
  { by rewrite Hnil in Hn. }
  rewrite Htr, main_serialize_headers in Hn, Hm.
  apply (loop_trace_headers _ _ _ _ _ _ Hloop) in Hn, Hm. subst h h'.
  unfold message_headers, merge_headers. rewrite !lookup_insert_eq. simpl. split.
  - intros Hstr%(inj Some). apply uuid_str_inj in Hstr; [done | apply uuid4_of_bytes_below ..].
  - by intros ->.
Qed.

(** X10: the [n]-th generated event is a function of the draws: its
    account, its amount and its retailer come from the draws [4n], [4n+1]
    and [4n+2] of the [random] module, in this order, and its timestamp is
    the [n]-th reading of [time.time_ns()]. *)
Theorem nth_event_by_draws w n v :
  printed (st_trace (main (init w)).2) !! n = Some v →
  ∃ source,
    retailers !! Z.to_nat (Py.randbelow 6 (mt_word (4 * n + 2))) = Some source ∧
    v = make_value (Py.randbelow 11 (mt_word (4 * n)))
                   (-2500 + Py.randbelow 2500 (mt_word (4 * n + 1)))
                   source (clock_ns n).
Proof.
  intros Hn. destruct (main_draws w) as [Hnil | (tl & exc & Hdraws & Htr)].
  { by rewrite Hnil in Hn. }
  rewrite Htr, main_printed in Hn.
  destruct (loop_draws_printed _ _ _ _ _ Hdraws Hn) as (source & Hsrc & ->).
  exists source.
  replace (2 + (0 + 4 * n))%nat with (4 * n + 2)%nat in Hsrc by lia.
  split; [exact Hsrc|].
  replace (1 + (0 + 4 * n))%nat with (4 * n + 1)%nat by lia.
  replace (0 + 4 * n)%nat with (4 * n)%nat by lia.
  replace (0 + n)%nat with n by lia. reflexivity.
Qed.

(** X11: the [n]-th sleep lasts what the draw [4n+3] of the [random]
    module gives: the draw after those of the [n]-th event. *)
Theorem nth_sleep_by_draws w n d :
  slept (st_trace (main (init w)).2) !! n = Some d →
  d = Py.random_of_word (mt_word (4 * n + 3)).
Proof.
  intros Hn. destruct (main_draws w) as [Hnil | (tl & exc & Hdraws & Htr)].
  { by rewrite Hnil in Hn. }
  rewrite Htr, main_slept in Hn.
  by apply (loop_draws_slept _ _ _ _ _ Hdraws) in Hn.
Qed.

End Extras.


(** ** The further properties at work on the sample runs *)

Lemma transaction_source_of_generated_event_witness :
  EvPrint Demo.first_value ∈ st_trace Demo.flaky_run.2 ∧
  transaction_source Demo.first_value ∈ retailers.
Proof.
  split; [exact flaky_first_print|].
  exact (@transaction_source_of_generated_event Demo.flaky 0%nat _ flaky_first_print).
Defined.

Lemma stuttering_prints :
  EvPrint (make_value 3 (-2497) "Bikey Bikes" 1700000000000000000)
    ∈ st_trace Demo.stuttering_run.2 ∧
  EvPrint (make_value 3 (-2497) "Bikey Bikes" 1700000000000000001)
    ∈ st_trace Demo.stuttering_run.2.
Proof.
  split.
  - apply (list_elem_of_lookup_2 _ 1). vm_compute. reflexivity.
  - apply (list_elem_of_lookup_2 _ 5). vm_compute. reflexivity.
Qed.

Lemma same_account_id_same_class_witness :
  let v := make_value 3 (-2497) "Bikey Bikes" 1700000000000000000 in
  let v' := make_value 3 (-2497) "Bikey Bikes" 1700000000000000001 in
  (EvPrint v ∈ st_trace Demo.stuttering_run.2 ∧
   EvPrint v' ∈ st_trace Demo.stuttering_run.2 ∧
   account_id v = account_id v') ∧
  account_class v = account_class v'.
Proof.
  intros v v'. destruct stuttering_prints as [Hv Hv'].
  split; [split; [exact Hv | split; [exact Hv' | reflexivity]]|].
  exact (@same_account_id_same_class Demo.stuttering 0%nat v v' Hv Hv' eq_refl).
Defined.

Lemma flaky_raises : Demo.flaky_run.1 = Raise Demo.buffer_error.
Proof. vm_compute. reflexivity. Qed.

Lemma raises_only_library_errors_witness :
  Demo.flaky_run.1 = Raise Demo.buffer_error ∧
  ∃ e, Demo.buffer_error = LibraryError e.
Proof.
  split; [exact flaky_raises|].
  exact (@raises_only_library_errors Demo.flaky 0%nat _ flaky_raises).
Defined.

Lemma raised_run_lost_one_event_witness :
  ((@lib_get_producer Demo.flaky 0%nat).1 = None ∧
   Demo.flaky_run.1 = Raise Demo.buffer_error) ∧
  let tr := st_trace Demo.flaky_run.2 in
  count is_print tr = S (count is_published tr) ∧
  count is_sleep tr = count is_published tr.
Proof.
  split; [split; [reflexivity | exact flaky_raises]|].
  exact (@raised_run_lost_one_event Demo.flaky 0%nat _ eq_refl flaky_raises).
Defined.

Lemma flaky_sent :
  serialize_headers (st_trace Demo.flaky_run.2) !! 0%nat
    = Some (@message_headers Demo.flaky 0) ∧
  serialize_headers (st_trace Demo.flaky_run.2) !! 1%nat
    = Some (@message_headers Demo.flaky 1).
Proof. split; vm_compute; reflexivity. Qed.

Lemma uuid_headers_equal_iff_witness :
  (serialize_headers (st_trace Demo.flaky_run.2) !! 0%nat
     = Some (@message_headers Demo.flaky 0) ∧
   serialize_headers (st_trace Demo.flaky_run.2) !! 1%nat
     = Some (@message_headers Demo.flaky 1)) ∧
  (@message_headers Demo.flaky 0 !! "uuid" = @message_headers Demo.flaky 1 !! "uuid" ↔
   Py.uuid4_of_bytes (@urandom16 Demo.flaky 0) = Py.uuid4_of_bytes (@urandom16 Demo.flaky 1)).
Proof.
  split; [exact flaky_sent|].
  exact (@uuid_headers_equal_iff Demo.flaky 0%nat 0%nat 1%nat _ _
           (proj1 flaky_sent) (proj2 flaky_sent)).
Defined.

Lemma flaky_second_printed :
  printed (st_trace Demo.flaky_run.2) !! 1%nat = Some Demo.second_value.
Proof. vm_compute. reflexivity. Qed.

Lemma nth_event_by_draws_witness :
  printed (st_trace Demo.flaky_run.2) !! 1%nat = Some Demo.second_value ∧
  ∃ source,
    retailers !! Z.to_nat (Py.randbelow 6 (@mt_word Demo.flaky (4 * 1 + 2))) = Some source ∧
    Demo.second_value
      = make_value (Py.randbelow 11 (@mt_word Demo.flaky (4 * 1)))
                   (-2500 + Py.randbelow 2500 (@mt_word Demo.flaky (4 * 1 + 1)))
                   source (@clock_ns Demo.flaky 1).
Proof.
  split; [exact flaky_second_printed|].
  exact (@nth_event_by_draws Demo.flaky 0%nat 1%nat _ flaky_second_printed).
Defined.

Lemma flaky_first_slept :
  slept (st_trace Demo.flaky_run.2) !! 0%nat = Some (Qmake 24 (2 ^ 53)).
Proof. vm_compute. reflexivity. Qed.

Lemma nth_sleep_by_draws_witness :
  slept (st_trace Demo.flaky_run.2) !! 0%nat = Some (Qmake 24 (2 ^ 53)) ∧
  Qmake 24 (2 ^ 53) = Py.random_of_word (@mt_word Demo.flaky (4 * 0 + 3)).
Proof.
  split; [exact flaky_first_slept|].
  exact (@nth_sleep_by_draws Demo.flaky 0%nat 0%nat _ flaky_first_slept).
Defined.
